(** * PyQrack: the [QrackSimulator] binding over the native Qrack library

    A shallow embedding of [pyqrack/qrack_simulator.py].  The Python class is
    a thin wrapper: every method marshals its arguments into ctypes arrays and
    issues calls to the shared library [Qrack.qrack_lib].  The embedding keeps
    that shape: a method is a computation in a state-and-exception monad whose
    state is the native library's state together with the log of the native
    calls issued so far. *)

From Stdlib Require Import ZArith String List Lia PrimFloat.
From stdpp Require Import base option list gmap strings.

Open Scope Z_scope.

(** ** Python values and exceptions *)

(** The exceptions the module can raise, by Python class; [ArgumentError] is
    that of ctypes. *)
Inductive exn :=
| RuntimeError (msg : string)
| NameError (ident : string)
| AttributeError (attr : string)
| IndexError (msg : string)
| ValueError (msg : string)
| TypeError (msg : string)
| OverflowError (msg : string)
| ArgumentError (msg : string).

Inductive result (A : Type) :=
| Ok (a : A)
| Raise (e : exn).
Arguments Ok {A} a.
Arguments Raise {A} e.

Definition is_RuntimeError {A} (r : result A) : bool :=
  match r with Raise (RuntimeError _) => true | _ => false end.

(** [math.pi], the double nearest to pi. *)
Definition math_pi : float := 0x1.921fb54442d18p+1%float.

(** [len(a)] of a Python list. *)
Definition len {A} (a : list A) : Z := Z.of_nat (length a).

(** A [c_uint] holds its argument modulo 2^32; ctypes does not check for
    overflow. *)
Definition c_uint (a : Z) : Z := a mod 2 ^ 32.

(** The [Pauli] enumeration of [pyqrack/pauli.py], passed to the library as
    an opaque tag. *)
Inductive Pauli := PauliI | PauliX | PauliY | PauliZ.

(** A Python complex number, by its attributes [real] and [imag]. *)
Record complex := {
  real : float;
  imag : float
}.

(** The seven boolean layer switches of the constructor. *)
Record options := {
  isMultiDevice : bool;
  isSchmidtDecompose : bool;
  isStabilizerHybrid : bool;
  isBinaryDecisionTree : bool;
  isPaged : bool;
  is1QbFusion : bool;
  isCpuGpuHybrid : bool
}.

(** The defaults of [QrackSimulator.__init__]. *)
Definition default_options : options :=
  {| isMultiDevice := true; isSchmidtDecompose := true;
     isStabilizerHybrid := true; isBinaryDecisionTree := false;
     isPaged := true; is1QbFusion := true; isCpuGpuHybrid := true |}.

(** ** The native library

    [qrack_lib.call R] is a call to an entry point of the shared library that
    hands a value of type [R] back to Python.  The simulator id is passed as
    the binding has it in [self.sid]: [None] or an integer.  A call that fills
    a caller-owned ctypes array returns the array's contents after the call. *)
Module qrack_lib.
Inductive call : Type -> Type :=
| init_count_type (n : Z) (o : options) : call Z
| init_clone (sid : Z) : call Z
| destroy (sid : option Z) : call unit
| Prob (sid : option Z) (q : Z) : call float
| PhaseParity (sid : option Z) (la : float) (n : Z) (q : list Z) : call unit
| X (sid : option Z) (q : Z) : call unit
| Z (sid : option BinNums.Z) (q : BinNums.Z) : call unit
| H (sid : option BinNums.Z) (q : BinNums.Z) : call unit
| S (sid : option BinNums.Z) (q : BinNums.Z) : call unit
| T (sid : option BinNums.Z) (q : BinNums.Z) : call unit
| MCX (sid : option BinNums.Z) (n : BinNums.Z) (c : list BinNums.Z)
      (q : BinNums.Z) : call unit
| MCZ (sid : option BinNums.Z) (n : BinNums.Z) (c : list BinNums.Z)
      (q : BinNums.Z) : call unit
| MCH (sid : option BinNums.Z) (n : BinNums.Z) (c : list BinNums.Z)
      (q : BinNums.Z) : call unit
| R (sid : option BinNums.Z) (b : Pauli) (ph : float) (q : BinNums.Z)
  : call unit
| MCR (sid : option BinNums.Z) (b : Pauli) (ph : float) (n : BinNums.Z)
      (c : list BinNums.Z) (q : BinNums.Z) : call unit
| MeasureShots (sid : option BinNums.Z) (n : BinNums.Z) (q : list BinNums.Z)
      (s : BinNums.Z) (m : list BinNums.Z) : call (list BinNums.Z)
| SWAP (sid : option BinNums.Z) (qi1 qi2 : BinNums.Z) : call unit
| FSim (sid : option BinNums.Z) (th ph : float) (qi1 qi2 : BinNums.Z)
  : call unit
| Decompose (sid : option BinNums.Z) (n : BinNums.Z) (q : list BinNums.Z)
  : call BinNums.Z
| LDA (sid : option BinNums.Z) (ni : BinNums.Z) (qi : list BinNums.Z)
      (nv : BinNums.Z) (qv : list BinNums.Z) (t : list BinNums.Z) : call unit
| ADC (sid : option BinNums.Z) (s : BinNums.Z) (ni : BinNums.Z)
      (qi : list BinNums.Z) (nv : BinNums.Z) (qv : list BinNums.Z)
      (t : list BinNums.Z) : call unit
| SBC (sid : option BinNums.Z) (s : BinNums.Z) (ni : BinNums.Z)
      (qi : list BinNums.Z) (nv : BinNums.Z) (qv : list BinNums.Z)
      (t : list BinNums.Z) : call unit
| Hash (sid : option BinNums.Z) (n : BinNums.Z) (q : list BinNums.Z)
      (t : list BinNums.Z) : call unit
| TrySeparateTol (sid : option BinNums.Z) (n : BinNums.Z)
      (qs : list BinNums.Z) (tol : float) : call bool.
End qrack_lib.

(** An implementation of the library: its process-wide state and what each
    call answers and does to it. *)
Class Native := {
  nstate : Type;
  native : forall {R : Type}, qrack_lib.call R -> nstate -> R * nstate
}.

(** One entry of the log of native calls. *)
Inductive event :=
| Ev {R : Type} (c : qrack_lib.call R).

Definition is_destroy (e : event) : bool :=
  match e with Ev (qrack_lib.destroy _) => true | _ => false end.

Definition is_FSim (e : event) : bool :=
  match e with Ev (qrack_lib.FSim _ _ _ _ _) => true | _ => false end.

(** How often the native destroy routine occurs in a log. *)
Definition destroy_calls (l : list event) : nat :=
  length (filter (fun e => is_destroy e = true) l).

(** ** The monad of the binding *)

Record world `{Native} := World {
  engine : nstate;
  trace : list event
}.

Definition M `{Native} (A : Type) : Type := world -> result A * world.

Definition ret `{Native} {A} (a : A) : M A := fun w => (Ok a, w).

Definition raise `{Native} {A} (e : exn) : M A := fun w => (Raise e, w).

Definition bind `{Native} {A B} (m : M A) (k : A -> M B) : M B :=
  fun w => match m w with
           | (Ok a, w') => k a w'
           | (Raise e, w') => (Raise e, w')
           end.

(** A pure computation that may raise. *)
Definition lift `{Native} {A} (r : result A) : M A := fun w => (r, w).

(** Issue a native call: it runs against the library state and is logged. *)
Definition call `{Native} {R} (c : qrack_lib.call R) : M R :=
  fun w => (Ok (fst (native c (engine w))),
            {| engine := snd (native c (engine w));
               trace := trace w ++ [Ev c] |}).

Declare Scope py_scope.
Delimit Scope py_scope with py.
Notation "x <- m ;; k" := (bind m (fun x => k))
  (at level 100, m at next level, right associativity) : py_scope.
Notation "m ;;; k" := (bind m (fun _ => k))
  (at level 100, right associativity) : py_scope.
Open Scope py_scope.

(** [for a in l: body(a)]. *)
Fixpoint for_each `{Native} {A} (l : list A) (body : A -> M unit) : M unit :=
  match l with
  | [] => ret tt
  | a :: l' => body a ;;; for_each l' body
  end.

(** ** Foreign (PyZX) circuits

    A gate record carries a name and, depending on its kind, some of the
    attributes below; reading an attribute the record does not have raises
    [AttributeError]. *)
Record gate := {
  name : string;
  phase : option float;
  target : option Z;
  control : option Z;
  targets : option (list Z);
  theta : option float;
  phi : option float;
  ctrl1 : option Z;
  ctrl2 : option Z
}.

Record circuit := {
  qubits : Z;
  gates : list gate
}.

Definition attr {A} (nm : string) (o : option A) : result A :=
  match o with
  | Some a => Ok a
  | None => Raise (AttributeError nm)
  end.

(** ** The simulator object *)

Record QrackSimulator := {
  sid : option Z
}.

(** *** Name resolution

    A name is looked up in the locals of the running method, then in the
    globals of the module (its imports and the class), then in the builtins.
    A name bound in none of them raises [NameError]. *)
Inductive pyval :=
| VInt (z : Z)
| VFloat (f : float)
| VInts (l : list Z)
| VSim (s : QrackSimulator)
| VGate (g : gate)
| VGates (gs : list gate)
| VGlobal (qualname : string).

(** [import math, cmath], [from ctypes import *] (the names the module uses),
    [from .qrack_system import Qrack], [from .pauli import Pauli], and the
    class itself. *)
Definition module_globals : list (string * pyval) :=
  [("math", VGlobal "math"); ("cmath", VGlobal "cmath");
   ("c_uint", VGlobal "ctypes.c_uint"); ("c_double", VGlobal "ctypes.c_double");
   ("c_ubyte", VGlobal "ctypes.c_ubyte"); ("byref", VGlobal "ctypes.byref");
   ("Qrack", VGlobal "pyqrack.qrack_system.Qrack");
   ("Pauli", VGlobal "pyqrack.pauli.Pauli");
   ("QrackSimulator", VGlobal "pyqrack.qrack_simulator.QrackSimulator")]%string.

Definition builtins : list (string * pyval) :=
  [("len", VGlobal "builtins.len"); ("range", VGlobal "builtins.range");
   ("float", VGlobal "builtins.float");
   ("RuntimeError", VGlobal "builtins.RuntimeError")]%string.

Fixpoint lookup_name (x : string) (scope : list (string * pyval))
  : option pyval :=
  match scope with
  | [] => None
  | (y, v) :: scope' => if String.eqb x y then Some v else lookup_name x scope'
  end.

Definition load_name (locals : list (string * pyval)) (x : string)
  : result pyval :=
  match lookup_name x (locals ++ module_globals ++ builtins) with
  | Some v => Ok v
  | None => Raise (NameError x)
  end.

(** [v.name] *)
Definition getattr_name (v : pyval) : result string :=
  match v with
  | VGate g => Ok (name g)
  | _ => Raise (AttributeError "name")
  end.

(** Passing [v] where the library expects a double. *)
Definition as_double (v : pyval) : result float :=
  match v with
  | VFloat f => Ok f
  | _ => Raise (TypeError "wrong type")
  end.

(** *** Methods *)

Module QrackSimulator.

(** A ctypes array of [len(a)] cells of type [c_uint], filled from [a]. *)
Definition _uint_byref (a : list Z) : list Z := map c_uint a.

(** A ctypes array of [len(a)] cells of type [c_double], filled from [a];
    a cell holds the double it was given. *)
Definition _double_byref (a : list float) : list float := a.

(** [t] is the list of the pairs [(c.real, c.imag)]; the array is filled from
    the items of the pairs of [t], pair after pair, each through [float],
    which gives a float back as it is. *)
Definition _complex_byref (a : list complex) : list float :=
  let t := map (fun c => (real c, imag c)) a in
  _double_byref (flat_map (fun sublist => [fst sublist; snd sublist]) t).

(** The inner loop of [_to_ubyte]: [c] rounds of
    [b[n] = u & 0xFF; u >>= 8; n += 1].  A ctypes array checks its bounds. *)
Fixpoint _to_ubyte_entry (c : nat) (b : list Z) (u : Z) (n : nat)
  : result (list Z * nat) :=
  match c with
  | O => Ok (b, n)
  | S c' =>
      if decide (n < length b)%nat
      then _to_ubyte_entry c' (<[n := Z.land u 255]> b) (Z.shiftr u 8) (S n)
      else Raise (IndexError "invalid index")
  end.

(** The outer loop of [_to_ubyte]: [for u in v]. *)
Fixpoint _to_ubyte_loop (c : nat) (v : list Z) (b : list Z) (n : nat)
  : result (list Z) :=
  match v with
  | [] => Ok b
  | u :: v' =>
      match _to_ubyte_entry c b u n with
      | Ok (b', n') => _to_ubyte_loop c v' b' n'
      | Raise e => Raise e
      end
  end.

(** [c] is [math.floor((nv - 1) / 8) + 1], the floor of a quotient: the
    integer division rounding down.  [1 << nv] raises on a negative count.
    [byref(b)] passes the buffer itself. *)
Definition _to_ubyte (nv : Z) (v : list Z) : result (list Z) :=
  let c := (nv - 1) / 8 + 1 in
  if nv <? 0 then Raise (ValueError "negative shift count")
  else
    let b := replicate (Z.to_nat (c * Z.shiftl 1 nv)) 0 in
    _to_ubyte_loop (Z.to_nat c) v b 0.

Section methods.
Context `{Native}.

Definition __del__ (self : QrackSimulator) : M QrackSimulator :=
  match sid self with
  | Some _ =>
      call (qrack_lib.destroy (sid self)) ;;;
      ret {| sid := None |}
  | None => ret self
  end.

(** [__del__] run [n] times on the same object. *)
Fixpoint del_times (n : nat) (self : QrackSimulator) : M QrackSimulator :=
  match n with
  | O => ret self
  | S n' => self' <- __del__ self ;; del_times n' self'
  end.

(** pseudo-quantum *)

Definition prob (self : QrackSimulator) (q : Z) : M float :=
  call (qrack_lib.Prob (sid self) q).

Definition phase_parity (self : QrackSimulator) (la : float) (q : list Z)
  : M unit :=
  call (qrack_lib.PhaseParity (sid self) la (len q) (_uint_byref q)).

(** single-qubit gates *)

Definition x (self : QrackSimulator) (q : Z) : M unit :=
  call (qrack_lib.X (sid self) q).

Definition z (self : QrackSimulator) (q : Z) : M unit :=
  call (qrack_lib.Z (sid self) q).

Definition h (self : QrackSimulator) (q : Z) : M unit :=
  call (qrack_lib.H (sid self) q).

Definition s (self : QrackSimulator) (q : Z) : M unit :=
  call (qrack_lib.S (sid self) q).

Definition t (self : QrackSimulator) (q : Z) : M unit :=
  call (qrack_lib.T (sid self) q).

(** multi-controlled single-qubit gates *)

Definition mcx (self : QrackSimulator) (c : list Z) (q : Z) : M unit :=
  call (qrack_lib.MCX (sid self) (len c) (_uint_byref c) q).

Definition mcz (self : QrackSimulator) (c : list Z) (q : Z) : M unit :=
  call (qrack_lib.MCZ (sid self) (len c) (_uint_byref c) q).

Definition mch (self : QrackSimulator) (c : list Z) (q : Z) : M unit :=
  call (qrack_lib.MCH (sid self) (len c) (_uint_byref c) q).

(** rotations *)

Definition r (self : QrackSimulator) (b : Pauli) (ph : float) (q : Z)
  : M unit :=
  call (qrack_lib.R (sid self) b ph q).

(** A Python float handed to a foreign function as it is.  ctypes converts
    integers, [None] and its own instances ([c_uint], [c_double], arrays); a
    bare float it refuses with [ArgumentError], before the library is
    entered. *)
Definition bare_float (position : string) (ph : float) : result float :=
  Raise (ArgumentError
           ("argument " ++ position ++
            ": TypeError: Don't know how to convert parameter " ++ position)).

(** [mcr] passes [ph], its third argument, as it is, where [r] wraps it in
    [c_double]. *)
Definition mcr (self : QrackSimulator) (b : Pauli) (ph : float) (c : list Z)
  (q : Z) : M unit :=
  ph <- lift (bare_float "3" ph) ;;
  call (qrack_lib.MCR (sid self) b ph (len c) (_uint_byref c) q).

(** measurements *)

(** What Python reads from a ctypes array of [c_uint] after the library has
    written [m'] over its old contents [m]: the array keeps its length, and
    every cell holds 32 bits. *)
Definition array_after (m m' : list Z) : list Z :=
  take (length m) (map c_uint m' ++ drop (length m') m).

(** [m[i]] on a ctypes array. *)
Definition getitem (m : list Z) (i : nat) : result Z :=
  match m !! i with
  | Some a => Ok a
  | None => Raise (IndexError "invalid index")
  end.

(** [[m[i] for i in range(s)]] *)
Fixpoint comprehension (m : list Z) (range : list nat) : result (list Z) :=
  match range with
  | [] => Ok []
  | i :: range' =>
      match getitem m i with
      | Ok a =>
          match comprehension m range' with
          | Ok l => Ok (a :: l)
          | Raise e => Raise e
          end
      | Raise e => Raise e
      end
  end.

(** [[0] * s]: a list of [s] zeros, empty for a negative [s].  A count that
    is not an index of the interpreter (a signed 64-bit integer) raises
    [OverflowError].  Running out of memory on a long list is outside the
    model. *)
Definition zeros (s : Z) : result (list Z) :=
  if (s <? - 2 ^ 63) || (2 ^ 63 <=? s)
  then Raise (OverflowError "cannot fit 'int' into an index-sized integer")
  else Ok (replicate (Z.to_nat s) 0).

Definition measure_shots (self : QrackSimulator) (q : list Z) (s : Z)
  : M (list Z) :=
  a <- lift (zeros s) ;;
  let m := _uint_byref a in
  m' <- call (qrack_lib.MeasureShots (sid self) (len q) (_uint_byref q) s m) ;;
  let m := array_after m m' in
  lift (comprehension m (seq 0 (Z.to_nat s))).

(** swap *)

Definition swap (self : QrackSimulator) (qi1 qi2 : Z) : M unit :=
  call (qrack_lib.SWAP (sid self) qi1 qi2).

Definition fsim (self : QrackSimulator) (th ph : float) (qi1 qi2 : Z)
  : M unit :=
  call (qrack_lib.FSim (sid self) th ph qi1 qi2).

(** Arithmetic-Logic-Unit: the table lookups *)

Definition lda (self : QrackSimulator) (qi qv t : list Z) : M unit :=
  b <- lift (_to_ubyte (len qv) t) ;;
  call (qrack_lib.LDA (sid self) (len qi) (_uint_byref qi)
          (len qv) (_uint_byref qv) b).

Definition adc (self : QrackSimulator) (s : Z) (qi qv t : list Z) : M unit :=
  b <- lift (_to_ubyte (len qv) t) ;;
  call (qrack_lib.ADC (sid self) s (len qi) (_uint_byref qi)
          (len qv) (_uint_byref qv) b).

Definition sbc (self : QrackSimulator) (s : Z) (qi qv t : list Z) : M unit :=
  b <- lift (_to_ubyte (len qv) t) ;;
  call (qrack_lib.SBC (sid self) s (len qi) (_uint_byref qi)
          (len qv) (_uint_byref qv) b).

Definition hash (self : QrackSimulator) (q t : list Z) : M unit :=
  b <- lift (_to_ubyte (len q) t) ;;
  call (qrack_lib.Hash (sid self) (len q) (_uint_byref q) b).

(** miscellaneous *)

Definition try_separate_tolerance (self : QrackSimulator) (qs : list Z)
  (t : float) : M bool :=
  let locals := [("self", VSim self); ("qs", VInts qs); ("t", VFloat t)]%string in
  let n := len qs in
  let a := _uint_byref qs in
  tol <- lift (load_name locals "tol") ;;
  tol <- lift (as_double tol) ;;
  call (qrack_lib.TrySeparateTol (sid self) n a tol).

(** The body of the loop of [run_pyzx_gates]: the [if]/[elif] chain on the
    gate's name.  The fifteenth test reads [game.name], not [gate.name]. *)
Definition run_pyzx_gate (self : QrackSimulator) (gates : list gate)
  (gate : gate) : M unit :=
  let locals :=
    [("self", VSim self); ("gates", VGates gates); ("gate", VGate gate)]%string in
  if String.eqb (name gate) "XPhase" then
    ph <- lift (attr "phase" (phase gate)) ;;
    tg <- lift (attr "target" (target gate)) ;;
    r self PauliX (PrimFloat.mul math_pi ph) tg
  else if String.eqb (name gate) "ZPhase" then
    ph <- lift (attr "phase" (phase gate)) ;;
    tg <- lift (attr "target" (target gate)) ;;
    r self PauliZ (PrimFloat.mul math_pi ph) tg
  else if String.eqb (name gate) "Z" then
    tg <- lift (attr "target" (target gate)) ;;
    z self tg
  else if String.eqb (name gate) "S" then
    tg <- lift (attr "target" (target gate)) ;;
    s self tg
  else if String.eqb (name gate) "T" then
    tg <- lift (attr "target" (target gate)) ;;
    t self tg
  else if String.eqb (name gate) "NOT" then
    tg <- lift (attr "target" (target gate)) ;;
    x self tg
  else if String.eqb (name gate) "HAD" then
    tg <- lift (attr "target" (target gate)) ;;
    h self tg
  else if String.eqb (name gate) "CNOT" then
    ct <- lift (attr "control" (control gate)) ;;
    tg <- lift (attr "target" (target gate)) ;;
    mcx self [ct] tg
  else if String.eqb (name gate) "CZ" then
    ct <- lift (attr "control" (control gate)) ;;
    tg <- lift (attr "target" (target gate)) ;;
    mcz self [ct] tg
  else if String.eqb (name gate) "CX" then
    ct <- lift (attr "control" (control gate)) ;;
    h self ct ;;;
    ct <- lift (attr "control" (control gate)) ;;
    tg <- lift (attr "target" (target gate)) ;;
    mcx self [ct] tg ;;;
    ct <- lift (attr "control" (control gate)) ;;
    h self ct
  else if String.eqb (name gate) "SWAP" then
    ct <- lift (attr "control" (control gate)) ;;
    tg <- lift (attr "target" (target gate)) ;;
    swap self ct tg
  else if String.eqb (name gate) "CRZ" then
    ph <- lift (attr "phase" (phase gate)) ;;
    ct <- lift (attr "control" (control gate)) ;;
    tg <- lift (attr "target" (target gate)) ;;
    mcr self PauliZ (PrimFloat.mul math_pi ph) [ct] tg
  else if String.eqb (name gate) "CHAD" then
    ct <- lift (attr "control" (control gate)) ;;
    tg <- lift (attr "target" (target gate)) ;;
    mch self [ct] tg
  else if String.eqb (name gate) "ParityPhase" then
    ph <- lift (attr "phase" (phase gate)) ;;
    tgs <- lift (attr "targets" (targets gate)) ;;
    phase_parity self (PrimFloat.mul math_pi ph) tgs
  else
    game <- lift (load_name locals "game") ;;
    game_name <- lift (getattr_name game) ;;
    if String.eqb game_name "FSim" then
      th <- lift (attr "theta" (theta gate)) ;;
      ph <- lift (attr "phi" (phi gate)) ;;
      ct <- lift (attr "control" (control gate)) ;;
      tg <- lift (attr "target" (target gate)) ;;
      fsim self th ph ct tg
    else if String.eqb (name gate) "CCZ" then
      c1 <- lift (attr "ctrl1" (ctrl1 gate)) ;;
      c2 <- lift (attr "ctrl2" (ctrl2 gate)) ;;
      tg <- lift (attr "target" (target gate)) ;;
      mcz self [c1; c2] tg
    else if String.eqb (name gate) "Tof" then
      c1 <- lift (attr "ctrl1" (ctrl1 gate)) ;;
      c2 <- lift (attr "ctrl2" (ctrl2 gate)) ;;
      tg <- lift (attr "target" (target gate)) ;;
      mcx self [c1; c2] tg
    else ret tt.

Definition run_pyzx_gates (self : QrackSimulator) (gates : list gate)
  : M unit :=
  for_each gates (run_pyzx_gate self gates).

(** non-quantum *)

(** The message of the constructor's guard. *)
Definition clone_and_count : string :=
  "Cannot clone a QrackSimulator and specify its qubit length at the same time, in QrackSimulator constructor!".

Definition __init__ (qubitCount cloneSid : Z) (opts : options)
  (pyzxCircuit : option circuit) : M QrackSimulator :=
  let qubitCount :=
    match pyzxCircuit with
    | Some c => qubits c
    | None => qubitCount
    end in
  if (qubitCount >? -1) && (cloneSid >? -1) then
    raise (RuntimeError clone_and_count)
  else
    h <- (if cloneSid >? -1 then call (qrack_lib.init_clone cloneSid)
          else
            let qubitCount := if qubitCount <? 0 then 0 else qubitCount in
            call (qrack_lib.init_count_type qubitCount opts)) ;;
    let self := {| sid := Some h |} in
    match pyzxCircuit with
    | Some c => run_pyzx_gates self (gates c) ;;; ret self
    | None => ret self
    end.

(** Schmidt decomposition *)

Definition decompose (self : QrackSimulator) (q : list Z)
  : M QrackSimulator :=
  other <- __init__ (-1) (-1) default_options None ;;
  call (qrack_lib.destroy (sid other)) ;;;
  h <- call (qrack_lib.Decompose (sid self) (len q) (_uint_byref q)) ;;
  ret {| sid := Some h |}.

End methods.
End QrackSimulator.

(** ** The engine behind the library

    The shared library itself is not part of the binding's sources.  Where a
    property of the binding depends on what an entry point does, the entry
    point is modelled from the design document of the engine, over an
    abstract account of quantum states. *)

(** Modelled from the spec: the mathematics of the amplitude store, whose
    code is missing and which the model leaves abstract.  A register has a
    quantum state and a randomness source ("owned per-Register"); the model
    needs the all-zero state of [n] qubits, the probability that a qubit
    measures 1, one hypothetical measurement of a qubit subset (its outcome
    and the randomness source after it), and the two factors of a state along
    a qubit subset. *)
Class QuantumStates := {
  qstate : Type;
  rng : Type;
  seed0 : rng;
  zero_state : Z -> qstate;
  prob_one : qstate -> Z -> float;
  shot : qstate -> list Z -> rng -> Z * rng;
  factor : qstate -> list Z -> qstate * qstate
}.

(** Modelled from the spec: the Register of the data model, whose code is
    missing.  It has its allocated qubits (hence "a qubit count"), its state,
    its own randomness source and the configuration bundle it was created
    with; its "stable identifier" is its key in the registry below. *)
Record register `{QuantumStates} := Register {
  reg_qubits : list Z;
  reg_state : qstate;
  reg_rng : rng;
  reg_options : options
}.

(** Modelled from the spec: the "process-wide registry" of "opaque simulator
    identifiers", whose code is missing.  A precondition violation (an
    invalid qubit index, a destroyed handle) is a programmer error on which
    the engine is to "fail fast and loud": it aborts and stays aborted. *)
Inductive engine_state `{QuantumStates} :=
| Running (regs : gmap Z register)
| Aborted.

(** The answer of a call that does not return normally is never looked at;
    the model hands back a fixed value of the right type. *)
Definition no_answer {R} (c : qrack_lib.call R) : R :=
  match c in qrack_lib.call R return R with
  | qrack_lib.init_count_type _ _ => -1
  | qrack_lib.init_clone _ => -1
  | qrack_lib.destroy _ => tt
  | qrack_lib.Prob _ _ => 0%float
  | qrack_lib.PhaseParity _ _ _ _ => tt
  | qrack_lib.X _ _ => tt
  | qrack_lib.Z _ _ => tt
  | qrack_lib.H _ _ => tt
  | qrack_lib.S _ _ => tt
  | qrack_lib.T _ _ => tt
  | qrack_lib.MCX _ _ _ _ => tt
  | qrack_lib.MCZ _ _ _ _ => tt
  | qrack_lib.MCH _ _ _ _ => tt
  | qrack_lib.R _ _ _ _ => tt
  | qrack_lib.MCR _ _ _ _ _ _ => tt
  | qrack_lib.MeasureShots _ _ _ _ m => m
  | qrack_lib.SWAP _ _ _ => tt
  | qrack_lib.FSim _ _ _ _ _ => tt
  | qrack_lib.Decompose _ _ _ => -1
  | qrack_lib.LDA _ _ _ _ _ _ => tt
  | qrack_lib.ADC _ _ _ _ _ _ _ => tt
  | qrack_lib.SBC _ _ _ _ _ _ _ => tt
  | qrack_lib.Hash _ _ _ _ => tt
  | qrack_lib.TrySeparateTol _ _ _ _ => false
  end.

Module Engine.
Section model.
Context `{QuantumStates}.

(** The register a handle of the binding denotes, if it is live. *)
Definition live (regs : gmap Z register) (sid : option Z) : option register :=
  match sid with
  | Some h => regs !! h
  | None => None
  end.

Definition has_qubits (r : register) (q : list Z) : bool :=
  forallb (fun i => bool_decide (i ∈ reg_qubits r)) q.

(** [s] hypothetical measurements of the subset [q], every one of the same
    state [st]; only the randomness source moves on. *)
Fixpoint shots (st : qstate) (q : list Z) (s : nat) (g : rng)
  : list Z * rng :=
  match s with
  | O => ([], g)
  | S s' =>
      let '(o, g') := shot st q g in
      let '(os, g'') := shots st q s' g' in
      (o :: os, g'')
  end.

(** Modelled from the spec: the construction interface of the engine, whose
    code is missing.  "Create a Register with a given qubit count and a
    configuration bundle"; a register has "a stable identifier", here one
    that no live register has. *)
Definition init_count_type (n : Z) (o : options) (regs : gmap Z register)
  : Z * engine_state :=
  let h := fresh (dom regs) in
  (h, Running (<[h := {| reg_qubits := seqZ 0 n; reg_state := zero_state n;
                         reg_rng := seed0; reg_options := o |}]> regs)).

(** Modelled from the spec: the other half of the construction interface,
    whose code is missing.  "Clone an existing Register's full state into a
    new independent one." *)
Definition init_clone (sid : Z) (regs : gmap Z register) : Z * engine_state :=
  match regs !! sid with
  | Some r => let h := fresh (dom regs) in (h, Running (<[h := r]> regs))
  | None => (-1, Aborted)
  end.

(** Modelled from the spec: the destruction interface of the engine, whose
    code is missing.  "Release all resources owned by a Register; safe to
    call at most once per Register; using a Register handle after destruction
    is a precondition violation." *)
Definition destroy (sid : option Z) (regs : gmap Z register)
  : unit * engine_state :=
  match sid, live regs sid with
  | Some h, Some _ => (tt, Running (delete h regs))
  | _, _ => (tt, Aborted)
  end.

(** Modelled from the spec: the probability query of the engine, whose code
    is missing.  "Returns P(qubit=1) without collapsing state -- pure read";
    an invalid qubit index is a precondition violation. *)
Definition Prob (sid : option Z) (q : Z) (regs : gmap Z register)
  : float * engine_state :=
  match live regs sid with
  | Some r =>
      if has_qubits r [q] then (prob_one (reg_state r) q, Running regs)
      else (0%float, Aborted)
  | None => (0%float, Aborted)
  end.

(** Modelled from the spec: repeated-shot sampling in the engine, whose code
    is missing.  "Given a qubit subset and a shot count, returns that many
    classical outcomes drawn from the current state's distribution without
    mutating the persistent state (each shot is a hypothetical independent
    measurement of a cloned or statistically simulated trial, not a
    sequential collapse of the real register)"; the randomness source "is
    owned per-Register". *)
Definition MeasureShots (sid : option Z) (q : list Z) (s : Z) (m : list Z)
  (regs : gmap Z register) : list Z * engine_state :=
  match sid, live regs sid with
  | Some h, Some r =>
      if has_qubits r q then
        let '(os, g) := shots (reg_state r) q (Z.to_nat s) (reg_rng r) in
        (os, Running (<[h := {| reg_qubits := reg_qubits r;
                                reg_state := reg_state r;
                                reg_rng := g;
                                reg_options := reg_options r |}]> regs))
      else (m, Aborted)
  | _, _ => (m, Aborted)
  end.

(** Modelled from the spec: decomposition in the engine, whose code is
    missing.  "Given a register and a subset of its qubits, produce a new
    independent register holding exactly that subset, provided the subset is
    exactly unentangled from the remainder at the time of the call; the
    remainder register retains its identity with the subset qubits removed."
    Separability is not validated: the engine trusts the caller. *)
Definition Decompose (sid : option Z) (q : list Z) (regs : gmap Z register)
  : Z * engine_state :=
  match sid, live regs sid with
  | Some h, Some r =>
      if has_qubits r q then
        let '(sub, rest) := factor (reg_state r) q in
        let regs' :=
          <[h := {| reg_qubits :=
                      List.filter (fun i => negb (bool_decide (i ∈ q)))
                                  (reg_qubits r);
                    reg_state := rest;
                    reg_rng := reg_rng r;
                    reg_options := reg_options r |}]> regs in
        let h' := fresh (dom regs') in
        (h', Running (<[h' := {| reg_qubits := q; reg_state := sub;
                                 reg_rng := seed0;
                                 reg_options := reg_options r |}]> regs'))
      else (-1, Aborted)
  | _, _ => (-1, Aborted)
  end.

(** One step of the engine.  The entry points above are as the design
    document has them; [gates] stands for all the others (the gate set, the
    ALU, separation), which the properties below do not depend on. *)
Definition step
  (gates : forall R, qrack_lib.call R -> gmap Z register -> R * engine_state)
  {R} (c : qrack_lib.call R) (e : engine_state) : R * engine_state :=
  match e with
  | Aborted => (no_answer c, Aborted)
  | Running regs =>
      match c in qrack_lib.call R return R * engine_state with
      | qrack_lib.init_count_type n o => init_count_type n o regs
      | qrack_lib.init_clone sid => init_clone sid regs
      | qrack_lib.destroy sid => destroy sid regs
      | qrack_lib.Prob sid q => Prob sid q regs
      | qrack_lib.MeasureShots sid _ q s m => MeasureShots sid q s m regs
      | qrack_lib.Decompose sid _ q => Decompose sid q regs
      | c' => gates _ c' regs
      end
  end.

End model.
End Engine.

(** The library as the design document describes it. *)
Definition spec_engine `{QuantumStates}
  (gates : forall R, qrack_lib.call R -> gmap Z register -> R * engine_state)
  : Native :=
  {| nstate := engine_state; native := @Engine.step _ gates |}.

(** ** A small instance: computational-basis states

    A state is the list of the qubits that hold 1; nothing is random.  The
    instance serves to run the binding on concrete inputs. *)

(** The outcome of measuring the subset [q]: bit [k] is the value of the
    [k]-th qubit of [q]. *)
Definition basis_outcome (st q : list Z) : Z :=
  fold_right (fun i acc => 2 * acc + (if bool_decide (i ∈ st) then 1 else 0))
             0 q.

Definition basis_states : QuantumStates :=
  {| qstate := list Z;
     rng := unit;
     seed0 := tt;
     zero_state := fun _ => [];
     prob_one := fun st q => if bool_decide (q ∈ st) then 1%float else 0%float;
     shot := fun st q g => (basis_outcome st q, g);
     factor := fun st q =>
       (List.filter (fun i => bool_decide (i ∈ q)) st,
        List.filter (fun i => negb (bool_decide (i ∈ q))) st) |}.

(** Gates that leave every register as it is. *)
Definition idle_gates `{QuantumStates} (R : Type) (c : qrack_lib.call R)
  (regs : gmap Z register) : R * engine_state :=
  (no_answer c, Running regs).

Definition basis_engine : Native := @spec_engine basis_states idle_gates.

(** The process before any simulator exists. *)
Definition fresh_world : @world basis_engine :=
  @World basis_engine (@Running basis_states ∅) [].

(** A process holding one two-qubit register, handle 0, in state |01>
    (qubit 0 holds 1). *)
Definition reg01 : @register basis_states :=
  @Register basis_states [0; 1] [0] tt default_options.

Definition regs0 : gmap Z (@register basis_states) := {[ 0 := reg01 ]}.

Definition one_register : @world basis_engine :=
  @World basis_engine (@Running basis_states regs0) [].




(** ** Vocabulary of the statements *)

(** The names [run_pyzx_gates] tests for before it reaches the test for
    'FSim', in the order of the chain. *)
Definition names_before_FSim : list string :=
  ["XPhase"; "ZPhase"; "Z"; "S"; "T"; "NOT"; "HAD"; "CNOT"; "CZ"; "CX";
   "SWAP"; "CRZ"; "CHAD"; "ParityPhase"]%string.

(** All the names the chain tests for. *)
Definition recognized_names : list string :=
  names_before_FSim ++ ["FSim"; "CCZ"; "Tof"]%string.

(** The qubit count the constructor works with: that of the foreign circuit
    when one is passed, the argument otherwise. *)
Definition effective_count (qubitCount : Z) (pyzxCircuit : option circuit)
  : Z :=
  match pyzxCircuit with
  | Some c => qubits c
  | None => qubitCount
  end.

(** The native call that creates the register of a new simulator object. *)
Definition creation (n cloneSid : Z) (opts : options) : qrack_lib.call Z :=
  if cloneSid >? -1 then qrack_lib.init_clone cloneSid
  else qrack_lib.init_count_type (Z.max n 0) opts.

(** The [c] low-order bytes of [u], least significant first. *)
Fixpoint le_bytes (c : nat) (u : Z) : list Z :=
  match c with
  | O => []
  | S c' => Z.land u 255 :: le_bytes c' (Z.shiftr u 8)
  end.

(** What one round of the loop of [run_pyzx_gates] can do, started in [w]:
    it adds native calls to the log, none of them [FSim], and the only
    exceptions it raises are [NameError], [AttributeError] and, from [mcr],
    [ArgumentError]. *)
Definition gate_outcome `{Native} (w : world) (out : result unit * world)
  : Prop :=
  (exists evs, trace (snd out) = trace w ++ evs /\
               forallb (fun e => negb (is_FSim e)) evs = true) /\
  match fst out with
  | Ok _ | Raise (NameError _) | Raise (AttributeError _)
  | Raise (ArgumentError _) => True
  | Raise _ => False
  end.

(** ** Sample inputs *)

(** The simulator object bound to handle 0. *)
Definition sim0 : QrackSimulator := {| sid := Some 0 |}.

(** A Hadamard on qubit 0, as PyZX names it. *)
Definition had_gate : gate :=
  {| name := "HAD"; phase := None; target := Some 0; control := None;
     targets := None; theta := None; phi := None; ctrl1 := None;
     ctrl2 := None |}.

(** A gate of a kind the translation does not know. *)
Definition u3_gate : gate :=
  {| name := "U3"; phase := None; target := Some 0; control := None;
     targets := None; theta := None; phi := None; ctrl1 := None;
     ctrl2 := None |}.

(** A fermionic-simulation gate between qubits 0 and 1. *)
Definition fsim_gate : gate :=
  {| name := "FSim"; phase := None; target := Some 1; control := Some 0;
     targets := None; theta := Some 0.5%float; phi := Some 0.25%float;
     ctrl1 := None; ctrl2 := None |}.

(** A Z rotation of qubit 1 controlled by qubit 0. *)
Definition crz_gate : gate :=
  {| name := "CRZ"; phase := Some 0.5%float; target := Some 1;
     control := Some 0; targets := None; theta := None; phi := None;
     ctrl1 := None; ctrl2 := None |}.

(** An empty circuit on two qubits. *)
Definition empty_circuit : circuit := {| qubits := 2; gates := [] |}.

(** *** Vocabulary of the further properties *)

(** Reading an array of doubles two cells at a time, as the library reads a
    matrix of complex numbers. *)
Fixpoint pairs (d : list float) : list complex :=
  match d with
  | re :: im :: d' => {| real := re; imag := im |} :: pairs d'
  | _ => []
  end.

(** The integer a sequence of bytes stands for, least significant byte
    first. *)
Fixpoint le_decode (bs : list Z) : Z :=
  match bs with
  | [] => 0
  | b :: bs' => b + 256 * le_decode bs'
  end.

Definition has_attr {A} (o : option A) : bool :=
  match o with
  | Some _ => true
  | None => false
  end.

(** A gate record the translation can handle: its name is one of those
    tested before 'FSim', 'CRZ' apart, and it has the attributes the branch
    of that name reads.  The branch of 'CRZ' ends in [mcr], which raises. *)
Definition translatable (g : gate) : bool :=
  if existsb (String.eqb (name g)) ["XPhase"; "ZPhase"]%string then
    has_attr (phase g) && has_attr (target g)
  else if existsb (String.eqb (name g)) ["Z"; "S"; "T"; "NOT"; "HAD"]%string
  then has_attr (target g)
  else if existsb (String.eqb (name g))
                  ["CNOT"; "CZ"; "CX"; "SWAP"; "CHAD"]%string
  then has_attr (control g) && has_attr (target g)
  else if String.eqb (name g) "ParityPhase" then
    has_attr (phase g) && has_attr (targets g)
  else false.

(** The number of native calls the translation of a translatable gate takes:
    three for 'CX' (a controlled X between two Hadamards), one for any
    other. *)
Definition calls_of (g : gate) : nat :=
  if String.eqb (name g) "CX" then 3%nat else 1%nat.

(** A CNOT from qubit 0 to qubit 1, and the same between Hadamards. *)
Definition cnot_gate : gate :=
  {| name := "CNOT"; phase := None; target := Some 1; control := Some 0;
     targets := None; theta := None; phi := None; ctrl1 := None;
     ctrl2 := None |}.

Definition cx_gate : gate :=
  {| name := "CX"; phase := None; target := Some 1; control := Some 0;
     targets := None; theta := None; phi := None; ctrl1 := None;
     ctrl2 := None |}.

(** * Properties *)

Import QrackSimulator.

(** ** The monad *)

Section monad_facts.
Context `{Native}.

Lemma bind_ok {A B} (m : M A) (k : A -> M B) (w w' : world) (a : A) :
  m w = (Ok a, w') -> bind m k w = k a w'.
Proof. intros Hm. unfold bind. now rewrite Hm. Qed.

Lemma bind_call {R B} (c : qrack_lib.call R) (k : R -> M B) (w : world) :
  bind (call c) k w =
  k (fst (native c (engine w)))
    {| engine := snd (native c (engine w)); trace := trace w ++ [Ev c] |}.
Proof. reflexivity. Qed.

End monad_facts.

(** ** Destruction *)

Section destruction.
Context `{Native}.

Lemma del_none (self : QrackSimulator) (w : world) :
  sid self = None -> __del__ self w = (Ok self, w).
Proof. intros Hs. unfold __del__. now rewrite Hs. Qed.

Lemma del_some (self : QrackSimulator) (h : Z) (w : world) :
  sid self = Some h ->
  __del__ self w =
  (Ok {| sid := None |},
   {| engine := snd (native (qrack_lib.destroy (Some h)) (engine w));
      trace := trace w ++ [Ev (qrack_lib.destroy (Some h))] |}).
Proof. intros Hs. unfold __del__. now rewrite Hs. Qed.

Lemma del_times_none (n : nat) (self : QrackSimulator) (w : world) :
  sid self = None -> del_times n self w = (Ok self, w).
Proof.
  intros Hs. induction n as [|n IH]; [reflexivity|].
  cbn [del_times]. now rewrite (bind_ok _ _ _ _ _ (del_none self w Hs)).
Qed.

Lemma destroy_calls_snoc (l : list event) (e : event) :
  destroy_calls (l ++ [e]) =
  (destroy_calls l + (if is_destroy e then 1 else 0))%nat.
Proof.
  unfold destroy_calls. rewrite filter_app, length_app.
  f_equal. cbn. destruct (is_destroy e); reflexivity.
Qed.

End destruction.

(** C8.  Destruction is idempotent at the binding level.  However many times
    [__del__] runs on a simulator object, the native destroy routine is
    called at most once: the runs add to the log of native calls the single
    call [destroy(sid)] when the object held a handle and at least one run
    took place, and nothing otherwise.  After the first run [sid] is [None],
    and on an object whose [sid] is [None] the destructor does nothing. *)
Theorem del_destroys_at_most_once `{Native} (self : QrackSimulator) (n : nat)
  (w : world) :
  let r := fst (del_times n self w) in
  let w' := snd (del_times n self w) in
  r = Ok (match n with O => self | S _ => {| sid := None |} end) /\
  trace w' =
    trace w ++ match n, sid self with
               | S _, Some h => [Ev (qrack_lib.destroy (Some h))]
               | _, _ => []
               end /\
  (destroy_calls (trace w') <= destroy_calls (trace w) + 1)%nat /\
  (sid self = None -> del_times n self w = (Ok self, w)).
Proof.
  assert (Hnone : sid self = None -> del_times n self w = (Ok self, w))
    by apply del_times_none.
  destruct n as [|n].
  - cbn. rewrite app_nil_r. repeat split; auto with lia.
  - destruct (sid self) as [h|] eqn:Hs.
    + cbn [del_times].
      rewrite (bind_ok _ _ _ _ _ (del_some self h w Hs)).
      rewrite del_times_none by reflexivity. cbn [fst snd trace].
      rewrite destroy_calls_snoc. cbn.
      repeat split; auto with lia. discriminate.
    + rewrite (Hnone eq_refl). cbn [fst snd]. rewrite app_nil_r.
      destruct self as [s0]. cbn in Hs. subst s0.
      repeat split; auto with lia.
Qed.

(** ** Foreign circuits *)

Section foreign.
Context `{Native}.

Lemma game_is_unbound (self : QrackSimulator) (gates : list gate) (g : gate) :
  load_name [("self", VSim self); ("gates", VGates gates); ("gate", VGate g)]%string
            "game" = Raise (NameError "game").
Proof. reflexivity. Qed.

Lemma not_elem_of_eqb (x : string) (l : list string) :
  x ∉ l -> forallb (fun y => negb (String.eqb x y)) l = true.
Proof.
  induction l as [|y l IH]; intros Hx; [reflexivity|].
  apply not_elem_of_cons in Hx as [Hxy Hl]. cbn.
  apply andb_true_intro. split; [|auto].
  apply negb_true_iff, String.eqb_neq, Hxy.
Qed.

(** A gate whose name is none of those tested before 'FSim' makes the loop
    body evaluate [game.name]. *)
Lemma run_pyzx_gate_game (self : QrackSimulator) (gates : list gate)
  (g : gate) (w : world) :
  name g ∉ names_before_FSim ->
  run_pyzx_gate self gates g w = (Raise (NameError "game"), w).
Proof.
  intros Hn. apply not_elem_of_eqb in Hn. cbn in Hn.
  repeat (apply andb_prop in Hn as [?%negb_true_iff Hn]).
  unfold run_pyzx_gate.
  repeat match goal with
         | E : String.eqb _ _ = false |- _ => rewrite E; clear E
         end.
  reflexivity.
Qed.

Ltac gate_outcome_done :=
  cbn; split; [eexists; split;
                [first [ symmetry; apply app_nil_r
                       | rewrite <- ?app_assoc; reflexivity ]
                | reflexivity ]
              | exact I ].

Lemma run_pyzx_gate_outcome (self : QrackSimulator) (gates : list gate)
  (g : gate) (w : world) :
  gate_outcome w (run_pyzx_gate self gates g w).
Proof.
  unfold run_pyzx_gate. rewrite game_is_unbound.
  repeat match goal with
         | |- context [if String.eqb ?a ?b then _ else _] =>
             destruct (String.eqb a b)
         end;
  unfold gate_outcome, bind, lift, attr,
    r, z, s, t, x, h, mcx, mcz, mch, mcr, bare_float, swap, phase_parity, call;
  destruct (phase g), (target g), (control g), (targets g);
  gate_outcome_done.
Qed.

End foreign.

Section translation.
Context `{Native}.

Lemma gate_outcome_trans (w w' : world) (out : result unit * world) :
  gate_outcome w (Ok tt, w') -> gate_outcome w' out -> gate_outcome w out.
Proof.
  intros [(evs & Ht & Hf) _] [(evs' & Ht' & Hf') Hr]. cbn in Ht.
  split; [|exact Hr].
  exists (evs ++ evs'). split.
  - rewrite Ht', Ht. apply eq_sym, app_assoc.
  - rewrite forallb_app, Hf, Hf'. reflexivity.
Qed.

Lemma run_gates_outcome (self : QrackSimulator) (gates l : list gate)
  (w : world) :
  gate_outcome w (for_each l (run_pyzx_gate self gates) w).
Proof.
  revert w. induction l as [|g l IH]; intros w.
  - split; [exists []; split; [apply eq_sym, app_nil_r | reflexivity] | exact I].
  - cbn [for_each]. unfold bind.
    pose proof (run_pyzx_gate_outcome self gates g w) as Hg.
    destruct (run_pyzx_gate self gates g w) as [[[]|e] w']; [|exact Hg].
    eapply gate_outcome_trans; [exact Hg | apply IH].
Qed.

(** A round that raises ends the loop: the translation fails when any gate
    of the list makes [body] raise. *)
Lemma for_each_raises {A} (body : A -> M unit) (l : list A) (a : A) :
  a ∈ l ->
  (forall w, exists e, fst (body a w) = Raise e) ->
  forall w, exists e, fst (for_each l body w) = Raise e.
Proof.
  intros Hin Hbody. induction l as [|b l IH]; intros w.
  - now apply elem_of_nil in Hin.
  - cbn [for_each]. unfold bind.
    destruct (body b w) as [[u|e] w'] eqn:Hb; [|now exists e].
    apply elem_of_cons in Hin as [->|Hin]; [|now apply IH].
    destruct (Hbody w) as [e He]. rewrite Hb in He. discriminate.
Qed.

Lemma filter_FSim_app (l evs : list event) :
  forallb (fun e => negb (is_FSim e)) evs = true ->
  filter (fun e => is_FSim e = true) (l ++ evs) =
  filter (fun e => is_FSim e = true) l.
Proof.
  intros Hf. rewrite filter_app.
  replace (filter (fun e => is_FSim e = true) evs) with (@nil event);
    [apply app_nil_r|].
  induction evs as [|e evs IH]; [reflexivity|].
  cbn in Hf. apply andb_prop in Hf as [He Hf].
  rewrite filter_cons_False; [now apply IH|].
  apply negb_true_iff in He. rewrite He. discriminate.
Qed.

End translation.

(** C2.  An unrecognized gate name is fatal.  For a gate record of the
    sequence whose name is none of the names the translation tests for, the
    round of the loop that handles it raises (the [NameError] of [game], with
    no native call issued), so the record is not skipped, and the translation
    of the whole sequence ends in an exception. *)
Theorem unrecognized_gate_is_fatal `{Native} (self : QrackSimulator)
  (gates : list gate) (g : gate) (w : world) :
  g ∈ gates ->
  name g ∉ recognized_names ->
  (forall w0, run_pyzx_gate self gates g w0 = (Raise (NameError "game"), w0)) /\
  exists e, fst (run_pyzx_gates self gates w) = Raise e.
Proof.
  intros Hin Hname.
  assert (Hbefore : name g ∉ names_before_FSim).
  { intros Hb. apply Hname. unfold recognized_names.
    apply elem_of_app. now left. }
  split.
  - intros w0. now apply run_pyzx_gate_game.
  - apply (for_each_raises _ gates g Hin).
    intros w0. exists (NameError "game").
    now rewrite run_pyzx_gate_game.
Qed.

(** C4.  The 'FSim' branch.  A gate record whose name matches none of the
    names tested before 'FSim' makes the round evaluate the undefined
    identifier [game]: the round raises [NameError] and issues no native
    call.  'FSim' is such a name, so a sequence holding a gate named 'FSim'
    (or any other such gate) never translates successfully; and whatever the
    sequence, the translation adds no [FSim] call to the log of native
    calls. *)
Theorem FSim_branch_raises `{Native} (self : QrackSimulator)
  (gates : list gate) (g : gate) (w : world) :
  name g ∉ names_before_FSim ->
  run_pyzx_gate self gates g w = (Raise (NameError "game"), w) /\
  ("FSim"%string ∉ names_before_FSim) /\
  (g ∈ gates -> exists e, fst (run_pyzx_gates self gates w) = Raise e) /\
  filter (fun e => is_FSim e = true)
         (trace (snd (run_pyzx_gates self gates w))) =
  filter (fun e => is_FSim e = true) (trace w).
Proof.
  intros Hname. split; [now apply run_pyzx_gate_game|].
  split.
  { intros Hin. unfold names_before_FSim in Hin.
    repeat (apply elem_of_cons in Hin as [Hin|Hin]; [discriminate Hin|]).
    now apply elem_of_nil in Hin. }
  split.
  - intros Hin. apply (for_each_raises _ gates g Hin).
    intros w0. exists (NameError "game").
    now rewrite run_pyzx_gate_game.
  - destruct (run_gates_outcome self gates gates w) as [(evs & Ht & Hf) _].
    unfold run_pyzx_gates. rewrite Ht. now apply filter_FSim_app.
Qed.

Lemma unrecognized_gate_is_fatal_witness :
  u3_gate ∈ [had_gate; u3_gate] /\
  (name u3_gate ∉ recognized_names) /\
  (forall w0 : @world basis_engine,
     run_pyzx_gate sim0 [had_gate; u3_gate] u3_gate w0 =
     (Raise (NameError "game"), w0)) /\
  exists e, fst (run_pyzx_gates sim0 [had_gate; u3_gate] one_register)
            = Raise e.
Proof.
  assert (Hin : u3_gate ∈ [had_gate; u3_gate])
    by (apply list_elem_of_further, list_elem_of_here).
  assert (Hname : name u3_gate ∉ recognized_names)
    by (apply (bool_decide_unpack _); vm_compute; exact I).
  exact (conj Hin (conj Hname
           (unrecognized_gate_is_fatal sim0 _ _ one_register Hin Hname))).
Defined.

Lemma FSim_branch_raises_witness :
  (name fsim_gate ∉ names_before_FSim) /\
  run_pyzx_gate sim0 [had_gate; fsim_gate] fsim_gate one_register =
  (Raise (NameError "game"), one_register).
Proof.
  assert (Hname : name fsim_gate ∉ names_before_FSim)
    by (apply (bool_decide_unpack _); vm_compute; exact I).
  split; [exact Hname|].
  exact (proj1 (FSim_branch_raises sim0 [had_gate; fsim_gate] fsim_gate
                  one_register Hname)).
Defined.

(** A recognized gate translates: the Hadamard of PyZX becomes one call of
    the library's [H]. *)
Example had_translates :
  run_pyzx_gates sim0 [had_gate] one_register =
  (Ok tt,
   @World basis_engine (Running regs0) [Ev (qrack_lib.H (Some 0) 0)]).
Proof. reflexivity. Qed.

(** ** Separation with a tolerance *)

(** C3.  [try_separate_tolerance(qs, t)] never reaches the library.  Its body
    passes [tol], a name bound neither in the method (whose parameter is [t])
    nor in the module: on every input the call raises [NameError] before
    [TrySeparateTol] is issued, and returns no report. *)
Theorem try_separate_tolerance_raises `{Native} (self : QrackSimulator)
  (qs : list Z) (t : float) (w : world) :
  try_separate_tolerance self qs t w = (Raise (NameError "tol"), w).
Proof. reflexivity. Qed.

(** ** Construction *)

Section construction.
Context `{Native}.

Lemma init_raises (qubitCount cloneSid : Z) (opts : options)
  (pyzxCircuit : option circuit) (w : world) :
  effective_count qubitCount pyzxCircuit > -1 -> cloneSid > -1 ->
  __init__ qubitCount cloneSid opts pyzxCircuit w =
  (Raise (RuntimeError clone_and_count), w).
Proof.
  intros Hn Hc. unfold __init__. fold (effective_count qubitCount pyzxCircuit).
  replace (effective_count qubitCount pyzxCircuit >? -1) with true
    by (symmetry; apply Z.gtb_lt; lia).
  replace (cloneSid >? -1) with true by (symmetry; apply Z.gtb_lt; lia).
  reflexivity.
Qed.

(** Past the guard the constructor first issues the creating call, binds the
    handle it returns, and then translates the foreign circuit if any. *)
Lemma init_creates (qubitCount cloneSid : Z) (opts : options)
  (pyzxCircuit : option circuit) (w : world) :
  ~ (effective_count qubitCount pyzxCircuit > -1 /\ cloneSid > -1) ->
  let c := creation (effective_count qubitCount pyzxCircuit) cloneSid opts in
  let self := {| sid := Some (fst (native c (engine w))) |} in
  let w1 := {| engine := snd (native c (engine w));
               trace := trace w ++ [Ev c] |} in
  __init__ qubitCount cloneSid opts pyzxCircuit w =
  match pyzxCircuit with
  | Some circ => (run_pyzx_gates self (gates circ) ;;; ret self) w1
  | None => (Ok self, w1)
  end.
Proof.
  intros Hg. unfold __init__. fold (effective_count qubitCount pyzxCircuit).
  set (n := effective_count qubitCount pyzxCircuit) in *.
  unfold creation.
  destruct (cloneSid >? -1) eqn:Hc.
  - apply Z.gtb_lt in Hc.
    replace (n >? -1) with false
      by (symmetry; rewrite Z.gtb_ltb; apply Z.ltb_ge; lia).
    cbn [andb]. rewrite bind_call. now destruct pyzxCircuit.
  - rewrite andb_false_r.
    replace (if n <? 0 then 0 else n) with (Z.max n 0)
      by (destruct (Z.ltb_spec n 0); lia).
    rewrite bind_call. now destruct pyzxCircuit.
Qed.

End construction.

(** C1 (amended).  The guard of the constructor works on the effective qubit
    count: the count of the foreign circuit when one is passed, the
    [qubitCount] argument otherwise.  When both the effective count and
    [cloneSid] exceed -1 the constructor raises [RuntimeError] with the world
    untouched, so before any native simulator exists.  In every other case it
    raises no [RuntimeError]; its first native call creates the register,
    [init_clone(cloneSid)] when [cloneSid] exceeds -1 and
    [init_count_type(max(count, 0), options)] otherwise; an object it returns
    is bound to the handle that call returned; and without a foreign circuit
    it returns such an object after that one call. *)
Theorem init_guard `{Native} (qubitCount cloneSid : Z) (opts : options)
  (pyzxCircuit : option circuit) (w : world) :
  let n := effective_count qubitCount pyzxCircuit in
  let c := creation n cloneSid opts in
  let out := __init__ qubitCount cloneSid opts pyzxCircuit w in
  (n > -1 /\ cloneSid > -1 ->
   out = (Raise (RuntimeError clone_and_count), w)) /\
  (~ (n > -1 /\ cloneSid > -1) ->
   is_RuntimeError (fst out) = false /\
   (exists rest, trace (snd out) = trace w ++ Ev c :: rest) /\
   (forall self, fst out = Ok self ->
                 sid self = Some (fst (native c (engine w)))) /\
   (pyzxCircuit = None ->
    out = (Ok {| sid := Some (fst (native c (engine w))) |},
           {| engine := snd (native c (engine w));
              trace := trace w ++ [Ev c] |}))).
Proof.
  cbv zeta. split.
  - intros [Hn Hc]. now apply init_raises.
  - intros Hg. rewrite (init_creates _ _ _ _ _ Hg). cbv zeta.
    set (c := creation _ cloneSid opts).
    destruct pyzxCircuit as [circ|].
    + unfold bind.
      match goal with
      | |- context [run_pyzx_gates ?s (gates circ) ?w1] =>
          pose proof (run_gates_outcome s (gates circ) (gates circ) w1) as Ho;
          fold (run_pyzx_gates s (gates circ)) in Ho;
          destruct (run_pyzx_gates s (gates circ) w1) as [[[]|e] w2]
      end;
      destruct Ho as [(evs & Ht & _) He]; cbn in Ht, He |- *.
      * repeat split; try discriminate.
        -- exists evs. rewrite Ht. now rewrite <- app_assoc.
        -- intros self [= <-]. reflexivity.
      * repeat split; try discriminate.
        -- now destruct e.
        -- exists evs. rewrite Ht. now rewrite <- app_assoc.
    + cbn. repeat split.
      * now exists [].
      * intros self [= <-]. reflexivity.
Qed.

(** The claim as first stated fails: with no [qubitCount] argument (-1), a
    clone source and a foreign circuit, at most one of the two is supplied,
    and the constructor raises the guard's error all the same. *)
Lemma init_guard_counterexample :
  ~ (-1 > -1 /\ 0 > -1) /\
  __init__ (-1) 0 default_options (Some empty_circuit) one_register =
  (Raise (RuntimeError clone_and_count), one_register).
Proof. split; [lia | reflexivity]. Qed.

(** C9.  A negative qubit count without a clone source and without a foreign
    circuit does not make the constructor fail: it issues the one native call
    [init_count_type(0, options)], the count replaced by 0 and the options as
    given, and returns the object bound to the handle of the register so
    created. *)
Theorem init_negative_count `{Native} (qubitCount : Z) (opts : options)
  (w : world) :
  qubitCount < 0 ->
  __init__ qubitCount (-1) opts None w =
  (Ok {| sid := Some (fst (native (qrack_lib.init_count_type 0 opts)
                                  (engine w))) |},
   {| engine := snd (native (qrack_lib.init_count_type 0 opts) (engine w));
      trace := trace w ++ [Ev (qrack_lib.init_count_type 0 opts)] |}).
Proof.
  intros Hn.
  rewrite init_creates by (cbn; lia). cbn.
  unfold creation. cbn. now rewrite Z.max_r by lia.
Qed.

Lemma init_negative_count_witness :
  -7 < 0 /\
  fst (__init__ (-7) (-1) default_options None fresh_world) =
  Ok {| sid := Some 0 |}.
Proof.
  split; [reflexivity|].
  exact (f_equal fst
           (init_negative_count (-7) default_options fresh_world eq_refl)).
Defined.

(** ** Lookup tables *)

Section tables.
Local Open Scope nat_scope.

Lemma length_le_bytes (c : nat) (u : Z) : length (le_bytes c u) = c.
Proof. revert u. induction c as [|c IH]; intros u; cbn; auto. Qed.

Lemma lookup_le_bytes (c i : nat) (u : Z) :
  i < c ->
  le_bytes c u !! i = Some (Z.land (Z.shiftr u (8 * Z.of_nat i)) 255).
Proof.
  revert u i. induction c as [|c IH]; intros u i Hi; [lia|].
  destruct i as [|i]; cbn [le_bytes].
  - reflexivity.
  - cbn [lookup list_lookup]. rewrite IH by lia.
    rewrite Z.shiftr_shiftr by lia. do 3 f_equal. lia.
Qed.

(** One entry: [c] bytes are written at [n], if they fit. *)
Lemma to_ubyte_entry_fits (c : nat) (b : list Z) (u : Z) (n : nat) :
  n + c <= length b ->
  _to_ubyte_entry c b u n =
  Ok (take n b ++ le_bytes c u ++ drop (n + c) b, n + c).
Proof.
  revert b u n. induction c as [|c IH]; intros b u n Hfit.
  - cbn. rewrite Nat.add_0_r, take_drop. reflexivity.
  - cbn [_to_ubyte_entry le_bytes].
    destruct (decide (n < length b)) as [Hn|Hn]; [|lia].
    rewrite IH by (rewrite length_insert; lia).
    rewrite (take_S_r _ n (Z.land u 255))
      by (apply list_lookup_insert_eq; lia).
    rewrite take_insert_ge, drop_insert_lt by lia.
    rewrite <- app_assoc. cbn [app].
    replace (S n + c) with (n + S c) by lia. reflexivity.
Qed.

Lemma to_ubyte_entry_overflow (c : nat) (b : list Z) (u : Z) (n : nat) :
  n <= length b < n + c ->
  _to_ubyte_entry c b u n = Raise (IndexError "invalid index").
Proof.
  revert b u n. induction c as [|c IH]; intros b u n Hn; [lia|].
  cbn [_to_ubyte_entry].
  destruct (decide (n < length b)) as [Hlt|Hlt]; [|reflexivity].
  apply IH. rewrite length_insert. lia.
Qed.

Lemma length_written (b l : list Z) (n : nat) :
  n + length l <= length b ->
  length (take n b ++ l ++ drop (n + length l) b) = length b.
Proof.
  intros Hfit. rewrite !length_app, length_take, length_drop. lia.
Qed.

(** The loop: the entries are written one after the other from [n] on. *)
Lemma to_ubyte_loop_fits (c : nat) (v b : list Z) (n : nat) :
  n + c * length v <= length b ->
  _to_ubyte_loop c v b n =
  Ok (take n b ++ flat_map (le_bytes c) v ++ drop (n + c * length v) b).
Proof.
  revert b n. induction v as [|u v IH]; intros b n Hfit.
  - cbn. rewrite Nat.mul_0_r, Nat.add_0_r, take_drop. reflexivity.
  - cbn [_to_ubyte_loop length flat_map] in *.
    rewrite to_ubyte_entry_fits by lia.
    pose proof (length_le_bytes c u) as Hc.
    set (e := le_bytes c u) in *.
    assert (Hlen : length (take n b ++ e ++ drop (n + c) b) = length b)
      by (rewrite <- Hc; apply length_written; lia).
    rewrite IH by (rewrite Hlen; lia).
    assert (Hn : length (take n b) = n) by (rewrite length_take; lia).
    f_equal.
    rewrite (app_assoc (take n b) e).
    rewrite take_app_length' by (rewrite length_app; lia).
    rewrite drop_app_ge by (rewrite length_app; lia).
    rewrite length_app, Hn, Hc, drop_drop.
    rewrite <- !app_assoc. do 3 f_equal. f_equal. lia.
Qed.

Lemma to_ubyte_loop_overflow (c : nat) (v b : list Z) (n : nat) :
  n <= length b < n + c * length v ->
  _to_ubyte_loop c v b n = Raise (IndexError "invalid index").
Proof.
  revert b n. induction v as [|u v IH]; intros b n Hn.
  - cbn in Hn. lia.
  - cbn [_to_ubyte_loop length] in *.
    destruct (decide (n + c <= length b)) as [Hfit|Hfit].
    + rewrite to_ubyte_entry_fits by lia.
      pose proof (length_le_bytes c u) as Hc.
      set (e := le_bytes c u) in *.
      assert (Hlen : length (take n b ++ e ++ drop (n + c) b) = length b)
        by (rewrite <- Hc; apply length_written; lia).
      apply IH. rewrite Hlen. lia.
    + rewrite to_ubyte_entry_overflow by lia. reflexivity.
Qed.

(** Reading entry [k], byte [i], out of the concatenation of the entries. *)
Lemma lookup_flat_map_le_bytes (c : nat) (v rest : list Z) (k i : nat)
  (u : Z) :
  v !! k = Some u -> i < c ->
  (flat_map (le_bytes c) v ++ rest) !! (k * c + i) = le_bytes c u !! i.
Proof.
  revert k. induction v as [|u' v IH]; intros k Hk Hi; [discriminate|].
  cbn [flat_map]. rewrite <- app_assoc.
  destruct k as [|k]; cbn in Hk.
  - injection Hk as ->. cbn. apply lookup_app_l.
    rewrite length_le_bytes. lia.
  - rewrite lookup_app_r by (rewrite length_le_bytes; lia).
    rewrite length_le_bytes.
    replace (S k * c + i - c) with (k * c + i) by lia. now apply IH.
Qed.

Lemma length_flat_map_le_bytes (c : nat) (v : list Z) :
  length (flat_map (le_bytes c) v) = c * length v.
Proof.
  induction v as [|u v IH]; cbn; [lia|].
  rewrite length_app, length_le_bytes, IH. lia.
Qed.

End tables.

Lemma entry_bytes_pos (nv : Z) : 1 <= nv -> 1 <= (nv - 1) / 8 + 1.
Proof. intros Hnv. pose proof (Z.div_pos (nv - 1) 8). lia. Qed.

(** [_to_ubyte] in closed form: the entries' bytes, then the zeros the buffer
    was created with. *)
Lemma to_ubyte_fits (nv : Z) (v : list Z) :
  1 <= nv -> len v <= 2 ^ nv ->
  let c := Z.to_nat ((nv - 1) / 8 + 1) in
  _to_ubyte nv v =
  Ok (flat_map (le_bytes c) v ++
      replicate (c * Z.to_nat (2 ^ nv) - c * length v) 0).
Proof.
  intros Hnv Hlen c. pose proof (entry_bytes_pos nv Hnv) as Hc.
  assert (Hpow : 0 < 2 ^ nv) by (apply Z.pow_pos_nonneg; lia).
  assert (Hv : (length v <= Z.to_nat (2 ^ nv))%nat) by (unfold len in Hlen; lia).
  unfold _to_ubyte.
  replace (nv <? 0) with false by (symmetry; apply Z.ltb_ge; lia).
  rewrite Z.shiftl_1_l, Z2Nat.inj_mul by lia. fold c.
  rewrite to_ubyte_loop_fits
    by (rewrite length_replicate; cbn; apply Nat.mul_le_mono_l, Hv).
  cbn [take Nat.add app]. now rewrite drop_replicate.
Qed.

Lemma to_ubyte_overflow (nv : Z) (v : list Z) :
  1 <= nv -> 2 ^ nv < len v ->
  _to_ubyte nv v = Raise (IndexError "invalid index").
Proof.
  intros Hnv Hlen. pose proof (entry_bytes_pos nv Hnv) as Hc.
  assert (Hpow : 0 < 2 ^ nv) by (apply Z.pow_pos_nonneg; lia).
  unfold _to_ubyte.
  replace (nv <? 0) with false by (symmetry; apply Z.ltb_ge; lia).
  rewrite Z.shiftl_1_l, Z2Nat.inj_mul by lia.
  apply to_ubyte_loop_overflow. rewrite length_replicate. split; [lia|].
  cbn [Nat.add]. apply Nat.mul_lt_mono_pos_l; [lia|].
  unfold len in Hlen. lia.
Qed.

(** C10 (amended).  For a register of [nv >= 1] qubits and a table [v] of at
    most [2^nv] entries, [_to_ubyte] returns a buffer of [c * 2^nv] bytes,
    [c = floor((nv - 1) / 8) + 1], in which entry [k] of the table occupies
    the [c] bytes from [k * c] on, least significant byte first, byte [i]
    being bits [8i .. 8i+7] of the entry; the bytes past the last entry are
    zero.  The four table calls ([lda], [adc], [sbc], [hash]) hand exactly
    this buffer to the library. *)
Theorem to_ubyte_little_endian `{Native} (nv : Z) (v : list Z) :
  1 <= nv ->
  len v <= 2 ^ nv ->
  let c := (nv - 1) / 8 + 1 in
  exists b,
    _to_ubyte nv v = Ok b /\
    len b = c * 2 ^ nv /\
    (forall (k i : nat) (u : Z),
       v !! k = Some u -> Z.of_nat i < c ->
       b !! (k * Z.to_nat c + i)%nat =
       Some (Z.land (Z.shiftr u (8 * Z.of_nat i)) 255)) /\
    (forall j : nat,
       c * len v <= Z.of_nat j < c * 2 ^ nv -> b !! j = Some 0) /\
    (forall (self : QrackSimulator) (s : Z) (qi qv : list Z) (w : world),
       len qv = nv ->
       lda self qi qv v w =
         call (qrack_lib.LDA (sid self) (len qi) (_uint_byref qi)
                 nv (_uint_byref qv) b) w /\
       adc self s qi qv v w =
         call (qrack_lib.ADC (sid self) s (len qi) (_uint_byref qi)
                 nv (_uint_byref qv) b) w /\
       sbc self s qi qv v w =
         call (qrack_lib.SBC (sid self) s (len qi) (_uint_byref qi)
                 nv (_uint_byref qv) b) w) /\
    (forall (self : QrackSimulator) (q : list Z) (w : world),
       len q = nv ->
       hash self q v w =
         call (qrack_lib.Hash (sid self) nv (_uint_byref q) b) w).
Proof.
  intros Hnv Hlen c. pose proof (entry_bytes_pos nv Hnv) as Hc. fold c in Hc.
  assert (Hpow : 0 < 2 ^ nv) by (apply Z.pow_pos_nonneg; lia).
  pose proof (to_ubyte_fits nv v Hnv Hlen) as Hb.
  cbv zeta in Hb. fold c in Hb.
  set (cn := Z.to_nat c) in *.
  assert (Hv : (cn * length v <= cn * Z.to_nat (2 ^ nv))%nat)
    by (apply Nat.mul_le_mono_l; unfold len in Hlen; lia).
  eexists. split; [exact Hb|].
  split; [|split; [|split; [|split]]].
  - unfold len.
    rewrite length_app, length_flat_map_le_bytes, length_replicate.
    replace (cn * length v + (cn * Z.to_nat (2 ^ nv) - cn * length v))%nat
      with (cn * Z.to_nat (2 ^ nv))%nat by lia.
    rewrite Nat2Z.inj_mul. unfold cn. lia.
  - intros k i u Hk Hi.
    rewrite (lookup_flat_map_le_bytes cn v _ k i u Hk) by (unfold cn; lia).
    apply lookup_le_bytes. unfold cn. lia.
  - intros j Hj. unfold len in Hj.
    assert (Hj' : (cn * length v <= j < cn * Z.to_nat (2 ^ nv))%nat).
    { assert (Hcn : Z.of_nat cn = c) by (unfold cn; lia).
      assert (Hp : Z.of_nat (Z.to_nat (2 ^ nv)) = 2 ^ nv) by lia.
      rewrite <- Hcn, <- Hp, <- !Nat2Z.inj_mul in Hj. lia. }
    rewrite lookup_app_r by (rewrite length_flat_map_le_bytes; lia).
    rewrite length_flat_map_le_bytes.
    apply lookup_replicate_2. lia.
  - intros self s qi qv w <-. unfold lda, adc, sbc, bind, lift.
    rewrite Hb. repeat split.
  - intros self q w <-. unfold hash, bind, lift. now rewrite Hb.
Qed.

(** The claim as first stated fails on a table with more entries than the
    register has values: the three entries given for a register of one qubit
    do not fit the buffer of two bytes, and [hash] raises before it reaches
    the library. *)
Lemma to_ubyte_counterexample :
  1 <= len [0] /\
  _to_ubyte (len [0]) [0; 1; 1] = Raise (IndexError "invalid index") /\
  hash sim0 [0] [0; 1; 1] one_register =
  (Raise (IndexError "invalid index"), one_register).
Proof. split; [reflexivity|]. split; reflexivity. Qed.

Lemma to_ubyte_little_endian_witness :
  1 <= 9 /\ len [258; 1] <= 2 ^ 9 /\
  exists b, _to_ubyte 9 [258; 1] = Ok b /\ len b = 2 * 2 ^ 9 /\
            take 4 b = [2; 1; 1; 0].
Proof.
  assert (Hlen : len [258; 1] <= 2 ^ 9) by (vm_compute; discriminate).
  split; [lia|]. split; [exact Hlen|].
  destruct (to_ubyte_little_endian (H := basis_engine) 9 [258; 1]
              ltac:(lia) Hlen)
    as (b & Hb & Hsize & _).
  exists b. split; [exact Hb|]. split; [exact Hsize|].
  vm_compute in Hb. injection Hb as <-. reflexivity.
Defined.

(** ** Sampling *)

Section sampling.
Context `{Native}.

Lemma uint_byref_zeros (n : nat) :
  _uint_byref (replicate n 0) = replicate n 0.
Proof. induction n as [|n IH]; cbn; [reflexivity|]. now f_equal. Qed.

Lemma uint_byref_id (q : list Z) :
  Forall (fun i => 0 <= i < 2 ^ 32) q -> _uint_byref q = q.
Proof.
  induction 1 as [|i q Hi _ IH]; cbn; [reflexivity|].
  unfold c_uint. rewrite Z.mod_small by exact Hi. now f_equal.
Qed.

Lemma length_array_after (m m' : list Z) :
  length (array_after m m') = length m.
Proof.
  unfold array_after.
  rewrite length_take, length_app, length_map, length_drop. lia.
Qed.


(** Reading every cell of an array in turn gives the array. *)
Lemma comprehension_suffix (l1 l2 : list Z) :
  comprehension (l1 ++ l2) (seq (length l1) (length l2)) = Ok l2.
Proof.
  revert l1. induction l2 as [|a l2 IH]; intros l1; [reflexivity|].
  cbn [length seq comprehension]. unfold getitem.
  rewrite lookup_app_r, Nat.sub_diag by lia. cbn [lookup list_lookup].
  replace (l1 ++ a :: l2) with ((l1 ++ [a]) ++ l2)
    by now rewrite <- app_assoc.
  replace (S (length l1)) with (length (l1 ++ [a]))
    by (rewrite length_app; cbn; lia).
  now rewrite IH.
Qed.

Lemma comprehension_all (m : list Z) :
  comprehension m (seq 0 (length m)) = Ok m.
Proof. apply (comprehension_suffix [] m). Qed.

Lemma zeros_in_range (s : Z) :
  - 2 ^ 63 <= s < 2 ^ 63 -> zeros s = Ok (replicate (Z.to_nat s) 0).
Proof.
  intros Hs. unfold zeros.
  destruct (Z.ltb_spec s (- 2 ^ 63)); [lia|].
  destruct (Z.leb_spec (2 ^ 63) s); [lia|]. reflexivity.
Qed.

Lemma zeros_overflow (s : Z) :
  s < - 2 ^ 63 \/ 2 ^ 63 <= s ->
  zeros s =
  Raise (OverflowError "cannot fit 'int' into an index-sized integer").
Proof.
  intros Hs. unfold zeros.
  destruct (Z.ltb_spec s (- 2 ^ 63)); [reflexivity|].
  destruct (Z.leb_spec (2 ^ 63) s); [reflexivity|]. lia.
Qed.

(** Whatever the library does, [measure_shots] issues one call and returns
    the cells of its array of [s] unsigned integers, when [s] is a size the
    interpreter can build a list of. *)
Lemma measure_shots_returns (self : QrackSimulator) (q : list Z) (s : Z)
  (w : world) :
  - 2 ^ 63 <= s < 2 ^ 63 ->
  let m := replicate (Z.to_nat s) 0 in
  let c := qrack_lib.MeasureShots (sid self) (len q) (_uint_byref q) s m in
  measure_shots self q s w =
  (Ok (array_after m (fst (native c (engine w)))),
   {| engine := snd (native c (engine w)); trace := trace w ++ [Ev c] |}).
Proof.
  intros Hs. cbv zeta. unfold measure_shots.
  rewrite (zeros_in_range s Hs). unfold lift at 1. unfold bind at 1.
  rewrite uint_byref_zeros, bind_call.
  unfold lift.
  set (ar := array_after _ _).
  replace (Z.to_nat s) with (length ar)
    by (unfold ar; rewrite length_array_after; apply length_replicate).
  now rewrite comprehension_all.
Qed.

(** A shot count that is no list size raises before the library is
    called. *)
Lemma measure_shots_overflow (self : QrackSimulator) (q : list Z) (s : Z)
  (w : world) :
  s < - 2 ^ 63 \/ 2 ^ 63 <= s ->
  measure_shots self q s w =
  (Raise (OverflowError "cannot fit 'int' into an index-sized integer"), w).
Proof.
  intros Hs. unfold measure_shots. rewrite (zeros_overflow s Hs).
  reflexivity.
Qed.

End sampling.

(** ** The binding over the modelled engine *)

Section over_engine.
Context `{QuantumStates}.

Lemma has_qubits_all (r : register) (q : list Z) :
  Forall (fun i => i ∈ reg_qubits r) q -> Engine.has_qubits r q = true.
Proof.
  unfold Engine.has_qubits. induction 1 as [|i q Hi _ IH]; [reflexivity|].
  cbn. now rewrite bool_decide_eq_true_2, IH.
Qed.



(** Creating a register and destroying it at once leaves the registry as it
    was. *)
Lemma create_destroy (o : options) (regs : gmap Z register) :
  let h := fst (Engine.init_count_type 0 o regs) in
  (h ∉ dom regs) /\
  exists regs1,
    Engine.init_count_type 0 o regs = (h, Running regs1) /\
    Engine.destroy (Some h) regs1 = (tt, Running regs).
Proof.
  cbn. assert (Hf : fresh (dom regs) ∉ dom regs) by apply is_fresh.
  split; [exact Hf|]. eexists. split; [reflexivity|].
  unfold Engine.destroy, Engine.live. rewrite lookup_insert_eq.
  rewrite delete_insert_id; [reflexivity|]. now apply not_elem_of_dom.
Qed.

(** Destroying a handle twice is the precondition violation the destructor
    guards against. *)
Lemma destroy_twice_aborts (h : Z) (regs : gmap Z register) :
  Engine.destroy (Some h) (delete h regs) = (tt, Aborted).
Proof.
  unfold Engine.destroy, Engine.live. now rewrite lookup_delete_eq.
Qed.

End over_engine.

(** ** Construction over the modelled engine *)

Section construction_over_engine.
Context `{QuantumStates}.
Variable gates_ :
  forall R, qrack_lib.call R -> gmap Z register -> R * engine_state.

(** Without a clone source the constructor adds a register of
    [max(qubitCount, 0)] qubits in the all-zero state, with the options
    given, under a handle no live register has. *)
Lemma init_fresh_over_engine (qubitCount : Z) (opts : options)
  (regs : gmap Z register) (tr : list event) :
  let w := @World (spec_engine gates_) (Running regs) tr in
  let n := Z.max qubitCount 0 in
  exists h,
    (h ∉ dom regs) /\
    __init__ qubitCount (-1) opts None w =
    (Ok {| sid := Some h |},
     @World (spec_engine gates_)
       (Running (<[h := {| reg_qubits := seqZ 0 n; reg_state := zero_state n;
                           reg_rng := seed0; reg_options := opts |}]> regs))
       (tr ++ [Ev (qrack_lib.init_count_type n opts)])).
Proof.
  intros w n. exists (fresh (dom regs)). split; [apply is_fresh|].
  rewrite init_creates by (cbn; lia). reflexivity.
Qed.

(** With a clone source the constructor adds a copy of the source register
    under a handle no live register has; the source stays as it is. *)
Lemma init_clone_over_engine (cloneSid : Z) (opts : options)
  (regs : gmap Z register) (r : register) (tr : list event) :
  let w := @World (spec_engine gates_) (Running regs) tr in
  cloneSid > -1 ->
  regs !! cloneSid = Some r ->
  exists h,
    (h ∉ dom regs) /\
    __init__ (-1) cloneSid opts None w =
    (Ok {| sid := Some h |},
     @World (spec_engine gates_) (Running (<[h := r]> regs))
       (tr ++ [Ev (qrack_lib.init_clone cloneSid)])).
Proof.
  intros w Hc Hr. exists (fresh (dom regs)). split; [apply is_fresh|].
  rewrite init_creates by (cbn; lia). cbn.
  unfold creation. replace (cloneSid >? -1) with true
    by (symmetry; apply Z.gtb_lt; lia).
  cbn. unfold Engine.init_clone. now rewrite Hr.
Qed.

End construction_over_engine.

(** C7.  [prob] is a pure read.  On a live register and a qubit it holds,
    [prob(q)] issues the one native call [Prob(sid, q)], returns the
    probability that the qubit measures 1 in the register's state, and leaves
    the state of the engine, hence of every register, as it was: a
    probability query or a sampling that follows answers as if [prob] had not
    been called. *)
Theorem prob_is_pure_read `{QuantumStates}
  (gates_ : forall R, qrack_lib.call R -> gmap Z register -> R * engine_state)
  (self : QrackSimulator) (q : Z) (regs : gmap Z register) (r : register)
  (tr : list event) :
  let w := @World (spec_engine gates_) (Running regs) tr in
  Engine.live regs (sid self) = Some r ->
  q ∈ reg_qubits r ->
  prob self q w =
    (Ok (prob_one (reg_state r) q),
     @World (spec_engine gates_) (Running regs)
       (tr ++ [Ev (qrack_lib.Prob (sid self) q)])) /\
  engine (snd (prob self q w)) = engine w /\
  (forall (self' : QrackSimulator) (q' : Z),
     fst ((prob self q ;;; prob self' q') w) = fst (prob self' q' w)) /\
  (forall (self' : QrackSimulator) (q' : list Z) (s : Z),
     fst ((prob self q ;;; measure_shots self' q' s) w) =
     fst (measure_shots self' q' s w)).
Proof.
  intros w Hlive Hq.
  assert (Hp : prob self q w =
               (Ok (prob_one (reg_state r) q),
                @World (spec_engine gates_) (Running regs)
                  (tr ++ [Ev (qrack_lib.Prob (sid self) q)]))).
  { unfold prob, call. cbn. unfold Engine.Prob. rewrite Hlive.
    rewrite has_qubits_all by (repeat constructor; exact Hq).
    reflexivity. }
  split; [exact Hp|]. split; [now rewrite Hp|]. split.
  - intros self' q'. unfold bind. rewrite Hp. reflexivity.
  - intros self' q' s. unfold bind. rewrite Hp.
    destruct (decide (- 2 ^ 63 <= s < 2 ^ 63)) as [Hs|Hs].
    + now rewrite !measure_shots_returns by exact Hs.
    + now rewrite !measure_shots_overflow by lia.
Qed.




(** C6.  Decomposition makes a new register and invalidates none.  On a live
    register [r] with handle [h] and a subset [q] of its qubits,
    [decompose(q)] returns a new simulator object whose handle [h'] was not
    live before the call and denotes a register holding exactly the qubits
    [q] in the factor of the state along [q]; [h] still denotes a register,
    with the qubits of [q] removed and the other factor as its state; every
    handle that was live is still live, and every register but that of [h]
    is as it was.  The one handle the call destroys is that of the temporary
    simulator it created itself. *)
Theorem decompose_new_register `{QuantumStates}
  (gates_ : forall R, qrack_lib.call R -> gmap Z register -> R * engine_state)
  (self : QrackSimulator) (q : list Z) (regs : gmap Z register)
  (r : register) (h : Z) (tr : list event) :
  let w := @World (spec_engine gates_) (Running regs) tr in
  sid self = Some h ->
  regs !! h = Some r ->
  Forall (fun i => 0 <= i < 2 ^ 32 /\ i ∈ reg_qubits r) q ->
  exists (t h' : Z) (sub rest : register),
    decompose self q w =
      (Ok {| sid := Some h' |},
       @World (spec_engine gates_)
         (Running (<[h' := sub]> (<[h := rest]> regs)))
         (tr ++ [Ev (qrack_lib.init_count_type 0 default_options);
                 Ev (qrack_lib.destroy (Some t));
                 Ev (qrack_lib.Decompose (Some h) (len q) q)])) /\
    (t ∉ dom regs) /\
    (h' ∉ dom regs) /\
    reg_qubits sub = q /\
    reg_state sub = fst (factor (reg_state r) q) /\
    reg_qubits rest =
      List.filter (fun i => negb (bool_decide (i ∈ q))) (reg_qubits r) /\
    reg_state rest = snd (factor (reg_state r) q) /\
    (forall k, k ∈ dom regs -> k ∈ dom (<[h' := sub]> (<[h := rest]> regs))) /\
    (forall k, k ≠ h -> k ≠ h' ->
               (<[h' := sub]> (<[h := rest]> regs)) !! k = regs !! k).
Proof.
  intros w Hsid Hreg Hq.
  assert (Hfit : _uint_byref q = q).
  { apply uint_byref_id. eapply Forall_impl; [exact Hq|]. now intros i []. }
  assert (Hin : Engine.has_qubits r q = true).
  { apply has_qubits_all. eapply Forall_impl; [exact Hq|]. now intros i []. }
  destruct (create_destroy default_options regs)
    as (Hfresh & regs1 & Hinit & Hdestroy).
  set (t := fst (Engine.init_count_type 0 default_options regs)) in *.
  unfold decompose.
  rewrite (bind_ok _ _ _ _ _
             (init_creates (-1) (-1) default_options None w
                ltac:(cbn; lia))).
  change (creation (effective_count (-1) None) (-1) default_options)
    with (qrack_lib.init_count_type 0 default_options).
  rewrite !bind_call. unfold ret. rewrite Hfit, Hsid.
  cbn [native spec_engine Engine.step engine w fst snd sid trace].
  rewrite Hinit. cbn [fst snd Engine.step]. rewrite Hdestroy.
  cbn [fst snd Engine.step]. unfold Engine.Decompose, Engine.live.
  rewrite Hreg, Hin.
  destruct (factor (reg_state r) q) as [qsub qrest]. cbn [fst snd].
  set (rest := {| reg_qubits := _; reg_state := qrest |}).
  set (h' := fresh (dom (<[h := rest]> regs))).
  assert (Hh' : h' ∉ dom regs).
  { pose proof (is_fresh (dom (<[h := rest]> regs))) as Hf. fold h' in Hf.
    rewrite dom_insert_L in Hf. set_solver. }
  exists t, h'. eexists. exists rest.
  split.
  { rewrite <- !app_assoc. reflexivity. }
  repeat split; try assumption.
  - intros k Hk. rewrite !dom_insert_L. set_solver.
  - intros k Hkh Hkh'. now rewrite !lookup_insert_ne by congruence.
Qed.

Lemma prob_is_pure_read_witness :
  Engine.live regs0 (sid sim0) = Some reg01 /\
  (0 ∈ reg_qubits reg01) /\
  prob sim0 0 one_register =
  (Ok 1%float,
   @World basis_engine (Running regs0) [Ev (qrack_lib.Prob (Some 0) 0)]).
Proof.
  assert (Hlive : Engine.live regs0 (sid sim0) = Some reg01) by reflexivity.
  assert (Hq : 0 ∈ reg_qubits reg01) by apply list_elem_of_here.
  exact (conj Hlive (conj Hq
           (proj1 (prob_is_pure_read idle_gates sim0 0 regs0 reg01 []
                     Hlive Hq)))).
Defined.


Lemma decompose_new_register_witness :
  sid sim0 = Some 0 /\
  regs0 !! 0 = Some reg01 /\
  Forall (fun i => 0 <= i < 2 ^ 32 /\ i ∈ reg_qubits reg01) [1] /\
  exists h', fst (decompose sim0 [1] one_register) = Ok {| sid := Some h' |} /\
             (h' ∉ dom regs0).
Proof.
  assert (Hreg : regs0 !! 0 = Some reg01) by reflexivity.
  assert (Hq : Forall (fun i => 0 <= i < 2 ^ 32 /\ i ∈ reg_qubits reg01) [1])
    by (apply (bool_decide_unpack _); vm_compute; exact I).
  split; [reflexivity|]. split; [exact Hreg|]. split; [exact Hq|].
  destruct (decompose_new_register idle_gates sim0 [1] regs0 reg01 0 []
              eq_refl Hreg Hq)
    as (t & h' & sub & rest & Hd & _ & Hh' & _).
  exists h'. split; [|exact Hh'].
  exact (f_equal fst Hd).
Defined.

(** In the computational-basis instance: qubit 0 of the register |01> holds
    1, so every shot over both qubits reads 1, and the register is as before
    the sampling. *)
Example measure_shots_basis :
  measure_shots sim0 [0; 1] 3 one_register =
  (Ok [1; 1; 1],
   @World basis_engine (Running regs0)
     [Ev (qrack_lib.MeasureShots (Some 0) 2 [0; 1] 3 [0; 0; 0])]).
Proof. reflexivity. Qed.

(** * Further properties of the binding *)

(** ** Marshalling *)

Section marshalling.

Lemma complex_byref_cons (c : complex) (a : list complex) :
  _complex_byref (c :: a) = real c :: imag c :: _complex_byref a.
Proof. reflexivity. Qed.

Lemma length_complex_byref (a : list complex) :
  length (_complex_byref a) = (2 * length a)%nat.
Proof.
  induction a as [|c a IH]; [reflexivity|].
  rewrite complex_byref_cons. cbn [length]. rewrite IH. lia.
Qed.

Lemma c_uint_range (x : Z) : 0 <= c_uint x < 2 ^ 32.
Proof. unfold c_uint. apply Z.mod_pos_bound. lia. Qed.

Lemma c_uint_idempotent (x : Z) : c_uint (c_uint x) = c_uint x.
Proof. unfold c_uint. apply Z.mod_mod. lia. Qed.

End marshalling.

(** X1.  The layout of a marshalled complex matrix.  [_complex_byref] turns
    a list of [n] complex numbers into an array of [2n] doubles in which
    cell [2k] is the real part and cell [2k + 1] the imaginary part of the
    [k]-th number. *)
Theorem complex_byref_layout (a : list complex) :
  len (_complex_byref a) = 2 * len a /\
  forall (k : nat) (c : complex),
    a !! k = Some c ->
    _complex_byref a !! (2 * k)%nat = Some (real c) /\
    _complex_byref a !! (2 * k + 1)%nat = Some (imag c).
Proof.
  split.
  - unfold len. rewrite length_complex_byref. lia.
  - induction a as [|c0 a IH]; intros k c Hk; [discriminate|].
    rewrite complex_byref_cons.
    destruct k as [|k]; cbn in Hk.
    + injection Hk as ->. split; reflexivity.
    + destruct (IH k c Hk) as [Hre Him].
      replace (2 * S k)%nat with (S (S (2 * k))) by lia.
      replace (S (S (2 * k)) + 1)%nat with (S (S (2 * k + 1))) by lia.
      split; assumption.
Qed.

(** X2.  Marshalling a complex matrix loses nothing.  Reading the array two
    cells at a time gives the list back, so two lists of complex numbers
    that marshal to the same array are equal. *)
Theorem complex_byref_round_trip (a : list complex) :
  pairs (_complex_byref a) = a /\
  forall b : list complex, _complex_byref a = _complex_byref b -> a = b.
Proof.
  assert (Hrt : forall l, pairs (_complex_byref l) = l).
  { induction l as [|c l IH]; [reflexivity|].
    rewrite complex_byref_cons. cbn [pairs]. rewrite IH. now destruct c. }
  split; [apply Hrt|].
  intros b Hab. rewrite <- (Hrt a), <- (Hrt b). now rewrite Hab.
Qed.

(** X3.  Qubit indices are taken modulo 2^32.  [_uint_byref] keeps the
    length of the list and stores every index as the unsigned 32-bit value
    congruent to it, without rejecting any: lists that agree index by index
    modulo 2^32 marshal to the same array, so a controlled gate called with
    either issues the same native call. *)
Theorem uint_byref_wraps `{Native} (a b : list Z) :
  Forall2 (fun x y => x mod 2 ^ 32 = y mod 2 ^ 32) a b ->
  _uint_byref a = _uint_byref b /\
  len (_uint_byref a) = len a /\
  Forall (fun x => 0 <= x < 2 ^ 32) (_uint_byref a) /\
  _uint_byref (_uint_byref a) = _uint_byref a /\
  forall (self : QrackSimulator) (q : Z) (w : world),
    mcx self a q w = mcx self b q w /\
    mcz self a q w = mcz self b q w /\
    mch self a q w = mch self b q w.
Proof.
  intros Hab.
  assert (Heq : _uint_byref a = _uint_byref b).
  { induction Hab as [|x y a b Hxy _ IH]; [reflexivity|].
    unfold _uint_byref in *. cbn [map].
    f_equal; [unfold c_uint; exact Hxy | exact IH]. }
  assert (Hlen : len a = len b).
  { unfold len. f_equal. eapply Forall2_length, Hab. }
  split; [exact Heq|]. split.
  { unfold len, _uint_byref. now rewrite length_map. }
  split.
  { unfold _uint_byref. apply Forall_map, Forall_forall.
    intros x _. apply c_uint_range. }
  split.
  { unfold _uint_byref. rewrite map_map. apply map_ext.
    intros x. apply c_uint_idempotent. }
  intros self q w. unfold mcx, mcz, mch. now rewrite Heq, Hlen.
Qed.

Lemma uint_byref_wraps_witness :
  Forall2 (fun x y => x mod 2 ^ 32 = y mod 2 ^ 32)
          [-1; 2 ^ 32] [4294967295; 0] /\
  _uint_byref [-1; 2 ^ 32] = _uint_byref [4294967295; 0].
Proof.
  assert (Hab : Forall2 (fun x y => x mod 2 ^ 32 = y mod 2 ^ 32)
                        [-1; 2 ^ 32] [4294967295; 0])
    by (repeat constructor).
  exact (conj Hab (proj1 (uint_byref_wraps (H := basis_engine) _ _ Hab))).
Defined.

(** ** Lookup tables, continued *)

Section bytes.

Lemma mod_256_split (u m : Z) :
  0 < m -> u mod (256 * m) = u mod 256 + 256 * ((u / 256) mod m).
Proof. intros Hm. apply Z.rem_mul_r; lia. Qed.

Lemma land_255 (u : Z) : Z.land u 255 = u mod 256.
Proof. change 255 with (Z.ones 8). now rewrite Z.land_ones by lia. Qed.

Lemma shiftr_8 (u : Z) : Z.shiftr u 8 = u / 256.
Proof. now rewrite Z.shiftr_div_pow2 by lia. Qed.

Lemma pow_bytes_succ (c : nat) :
  2 ^ (8 * Z.of_nat (S c)) = 256 * 2 ^ (8 * Z.of_nat c).
Proof.
  replace (8 * Z.of_nat (S c)) with (8 + 8 * Z.of_nat c) by lia.
  now rewrite Z.pow_add_r by lia.
Qed.

Lemma pow_bytes_pos (c : nat) : 0 < 2 ^ (8 * Z.of_nat c).
Proof. apply Z.pow_pos_nonneg; lia. Qed.

(** Decoding the [c] bytes of [u] gives [u] modulo [256^c]. *)
Lemma le_decode_le_bytes (c : nat) (u : Z) :
  le_decode (le_bytes c u) = u mod 2 ^ (8 * Z.of_nat c).
Proof.
  revert u. induction c as [|c IH]; intros u.
  - cbn. now rewrite Z.mod_1_r.
  - cbn [le_bytes le_decode]. rewrite IH, pow_bytes_succ.
    rewrite mod_256_split by apply pow_bytes_pos.
    now rewrite land_255, shiftr_8.
Qed.

(** The [c] bytes of [u] depend on [u] modulo [256^c] only. *)
Lemma le_bytes_mod (c : nat) (u : Z) :
  le_bytes c (u mod 2 ^ (8 * Z.of_nat c)) = le_bytes c u.
Proof.
  revert u. induction c as [|c IH]; intros u; [reflexivity|].
  cbn [le_bytes]. rewrite pow_bytes_succ, !land_255, !shiftr_8.
  pose proof (pow_bytes_pos c) as Hm.
  set (m := 2 ^ (8 * Z.of_nat c)) in *.
  pose proof (Z.mod_pos_bound u 256 ltac:(lia)) as Hr.
  rewrite (mod_256_split u m Hm), (Z.mul_comm 256 ((u / 256) mod m)).
  f_equal.
  - rewrite Z.mod_add by lia. apply Z.mod_mod. lia.
  - rewrite Z.div_add by lia.
    rewrite (Z.div_small (u mod 256)) by lia.
    rewrite Z.add_0_l. apply IH.
Qed.

Lemma le_bytes_range (c : nat) (u : Z) :
  Forall (fun x => 0 <= x <= 255) (le_bytes c u).
Proof.
  revert u. induction c as [|c IH]; intros u; constructor; [|apply IH].
  rewrite land_255. pose proof (Z.mod_pos_bound u 256). lia.
Qed.

(** Entry [k] of the table lies in the buffer at [k * c]. *)
Lemma segment_flat_map_le_bytes (c : nat) (v rest : list Z) (k : nat)
  (u : Z) :
  v !! k = Some u ->
  take c (drop (k * c) (flat_map (le_bytes c) v ++ rest)) = le_bytes c u.
Proof.
  revert k. induction v as [|u' v IH]; intros k Hk; [discriminate|].
  cbn [flat_map]. rewrite <- app_assoc.
  destruct k as [|k]; cbn in Hk.
  - injection Hk as ->. cbn [Nat.mul drop].
    apply take_app_length'. now rewrite length_le_bytes.
  - replace (S k * c)%nat with (length (le_bytes c u') + k * c)%nat
      by (rewrite length_le_bytes; lia).
    rewrite drop_app_add. now apply IH.
Qed.

Lemma entry_bytes_cover (nv : Z) : 1 <= nv -> nv <= 8 * ((nv - 1) / 8 + 1).
Proof.
  intros Hnv. pose proof (Z.mul_succ_div_gt (nv - 1) 8 ltac:(lia)). lia.
Qed.

(** With no byte per entry the loop writes nothing. *)
Lemma to_ubyte_loop_no_bytes (v b : list Z) (n : nat) :
  _to_ubyte_loop 0 v b n = Ok b.
Proof. revert b n. induction v as [|u v IH]; intros b n; cbn; auto. Qed.

End bytes.

(** X4.  Table entries can be read back.  For [nv >= 1] qubits and a table
    of at most [2^nv] entries, every cell of the buffer [_to_ubyte] returns
    is a byte (0..255), and decoding the [c] bytes at [k * c], least
    significant first, gives entry [k] modulo [256^c]: an entry that fits
    the register ([0 <= u < 2^nv]) is read back as it was, a negative one in
    two's complement. *)
Theorem to_ubyte_round_trip (nv : Z) (v : list Z) :
  1 <= nv ->
  len v <= 2 ^ nv ->
  let c := Z.to_nat ((nv - 1) / 8 + 1) in
  exists b,
    _to_ubyte nv v = Ok b /\
    Forall (fun x => 0 <= x <= 255) b /\
    forall (k : nat) (u : Z),
      v !! k = Some u ->
      le_decode (take c (drop (k * c) b)) = u mod 2 ^ (8 * Z.of_nat c) /\
      (0 <= u < 2 ^ nv -> le_decode (take c (drop (k * c) b)) = u).
Proof.
  intros Hnv Hlen c. eexists. split; [apply (to_ubyte_fits nv v Hnv Hlen)|].
  fold c. split.
  - apply Forall_app. split.
    + apply Forall_flat_map, Forall_forall. intros u _. apply le_bytes_range.
    + apply Forall_replicate. lia.
  - intros k u Hk.
    rewrite (segment_flat_map_le_bytes c v _ k u Hk), le_decode_le_bytes.
    split; [reflexivity|].
    intros Hu. apply Z.mod_small. split; [lia|].
    apply Z.lt_le_trans with (2 ^ nv); [lia|].
    apply Z.pow_le_mono_r; [lia|].
    pose proof (entry_bytes_cover nv Hnv).
    pose proof (entry_bytes_pos nv Hnv). unfold c. lia.
Qed.

Lemma to_ubyte_round_trip_witness :
  1 <= 9 /\ len [258; -1] <= 2 ^ 9 /\
  exists b, _to_ubyte 9 [258; -1] = Ok b /\
            le_decode (take 2 (drop 0 b)) = 258 /\
            le_decode (take 2 (drop 2 b)) = 65535.
Proof.
  assert (Hlen : len [258; -1] <= 2 ^ 9) by (vm_compute; discriminate).
  split; [lia|]. split; [exact Hlen|].
  destruct (to_ubyte_round_trip 9 [258; -1] ltac:(lia) Hlen)
    as (b & Hb & _ & Hdec).
  exists b. split; [exact Hb|]. split.
  - exact (proj1 (Hdec 0%nat 258 eq_refl)).
  - exact (proj1 (Hdec 1%nat (-1) eq_refl)).
Defined.

(** X5.  Wide entries are cut, not refused.  With [c] bytes per entry,
    tables that agree entry by entry modulo [256^c] are serialized alike
    (both to the same buffer, or both to the same error), so the table calls
    hand the library the low [c] bytes of an entry that is too wide without
    any complaint. *)
Theorem to_ubyte_truncates `{Native} (nv : Z) (v v' : list Z) :
  1 <= nv ->
  Forall2 (fun u u' => u mod 2 ^ (8 * ((nv - 1) / 8 + 1)) =
                       u' mod 2 ^ (8 * ((nv - 1) / 8 + 1))) v v' ->
  _to_ubyte nv v = _to_ubyte nv v' /\
  forall (self : QrackSimulator) (s : Z) (qi qv : list Z) (w : world),
    len qv = nv ->
    lda self qi qv v w = lda self qi qv v' w /\
    adc self s qi qv v w = adc self s qi qv v' w /\
    sbc self s qi qv v w = sbc self s qi qv v' w /\
    hash self qv v w = hash self qv v' w.
Proof.
  intros Hnv Hvv.
  pose proof (entry_bytes_pos nv Hnv) as Hc.
  set (c := Z.to_nat ((nv - 1) / 8 + 1)).
  assert (Hcz : 8 * ((nv - 1) / 8 + 1) = 8 * Z.of_nat c) by (unfold c; lia).
  rewrite Hcz in Hvv.
  assert (Hbytes : flat_map (le_bytes c) v = flat_map (le_bytes c) v').
  { induction Hvv as [|u u' v v' Hu _ IH]; [reflexivity|].
    cbn [flat_map]. rewrite IH. f_equal.
    now rewrite <- (le_bytes_mod c u), Hu, le_bytes_mod. }
  assert (Hlen : length v = length v') by (eapply Forall2_length, Hvv).
  assert (Heq : _to_ubyte nv v = _to_ubyte nv v').
  { destruct (Z_le_gt_dec (len v) (2 ^ nv)) as [Hfit|Hover].
    - rewrite (to_ubyte_fits nv v Hnv Hfit).
      rewrite (to_ubyte_fits nv v' Hnv)
        by (unfold len in *; rewrite <- Hlen; exact Hfit).
      cbv zeta. fold c. now rewrite Hbytes, Hlen.
    - rewrite (to_ubyte_overflow nv v Hnv) by lia.
      rewrite (to_ubyte_overflow nv v' Hnv)
        by (unfold len in *; rewrite <- Hlen; lia).
      reflexivity. }
  split; [exact Heq|].
  intros self s qi qv w <-. unfold lda, adc, sbc, hash. now rewrite Heq.
Qed.

Lemma to_ubyte_truncates_witness :
  1 <= 1 /\
  Forall2 (fun u u' => u mod 2 ^ (8 * ((1 - 1) / 8 + 1)) =
                       u' mod 2 ^ (8 * ((1 - 1) / 8 + 1))) [257; 2] [1; 2] /\
  _to_ubyte 1 [257; 2] = _to_ubyte 1 [1; 2].
Proof.
  assert (Hvv : Forall2 (fun u u' => u mod 2 ^ (8 * ((1 - 1) / 8 + 1)) =
                                     u' mod 2 ^ (8 * ((1 - 1) / 8 + 1)))
                        [257; 2] [1; 2]) by (repeat constructor).
  split; [lia|]. split; [exact Hvv|].
  exact (proj1 (to_ubyte_truncates (H := basis_engine) 1 _ _ ltac:(lia) Hvv)).
Defined.

(** X6.  A register of no qubits.  With [nv = 0] there is no byte per entry
    and no cell in the buffer: [_to_ubyte] returns the empty buffer for
    every table, however long, and [hash] on an empty qubit list hands the
    library an empty array whatever the table holds. *)
Theorem to_ubyte_no_qubits `{Native} (v : list Z) :
  _to_ubyte 0 v = Ok [] /\
  forall (self : QrackSimulator) (w : world),
    hash self [] v w = call (qrack_lib.Hash (sid self) 0 [] []) w.
Proof.
  assert (Hb : _to_ubyte 0 v = Ok []).
  { unfold _to_ubyte. cbn. apply to_ubyte_loop_no_bytes. }
  split; [exact Hb|].
  intros self w. unfold hash, bind, lift.
  change (len (@nil Z)) with 0. now rewrite Hb.
Qed.

(** X7.  A table longer than [2^nv] never reaches the library.  When the
    table has more than [2^len(qv)] entries the table calls raise
    [IndexError] and issue no native call.  This is the case of the full
    table of [2^len(qi)] entries whenever there are more index qubits than
    value qubits. *)
Theorem table_overflow_raises `{Native} (self : QrackSimulator) (s : Z)
  (qi qv t : list Z) (w : world) :
  1 <= len qv ->
  2 ^ len qv < len t ->
  (lda self qi qv t w = (Raise (IndexError "invalid index"), w) /\
   adc self s qi qv t w = (Raise (IndexError "invalid index"), w) /\
   sbc self s qi qv t w = (Raise (IndexError "invalid index"), w) /\
   hash self qv t w = (Raise (IndexError "invalid index"), w)) /\
  forall t' : list Z,
    len qv < len qi -> len t' = 2 ^ len qi ->
    lda self qi qv t' w = (Raise (IndexError "invalid index"), w).
Proof.
  intros Hnv Hlen.
  assert (Hraise : forall t0, 2 ^ len qv < len t0 ->
            _to_ubyte (len qv) t0 = Raise (IndexError "invalid index"))
    by (intros t0 Ht0; now apply to_ubyte_overflow).
  split.
  - unfold lda, adc, sbc, hash, bind, lift. now rewrite (Hraise t Hlen).
  - intros t' Hq Ht'. unfold lda, bind, lift. rewrite Hraise; [reflexivity|].
    rewrite Ht'. apply Z.pow_lt_mono_r; lia.
Qed.

Lemma table_overflow_raises_witness :
  1 <= len [2] /\ 2 ^ len [2] < len [0; 1; 1; 0] /\
  lda sim0 [0; 1] [2] [0; 1; 1; 0] one_register =
  (Raise (IndexError "invalid index"), one_register).
Proof.
  assert (H1 : 1 <= len [2]) by (vm_compute; discriminate).
  assert (H2 : 2 ^ len [2] < len [0; 1; 1; 0]) by reflexivity.
  split; [exact H1|]. split; [exact H2|].
  exact (proj1 (proj1 (table_overflow_raises sim0 0 [0; 1] [2] [0; 1; 1; 0]
                         one_register H1 H2))).
Defined.

(** ** Sampling, whatever the library does *)

Lemma array_after_range (m m' : list Z) :
  Forall (fun x => 0 <= x < 2 ^ 32) m ->
  Forall (fun x => 0 <= x < 2 ^ 32) (array_after m m').
Proof.
  intros Hm. unfold array_after. apply Forall_take, Forall_app. split.
  - apply Forall_map, Forall_forall. intros x _. apply c_uint_range.
  - now apply Forall_drop.
Qed.

(** X8.  The shape of a sample.  For any behaviour of the native library and
    any shot count [s] that is a list size of the interpreter, negative ones
    included, [measure_shots(q, s)] raises nothing, issues the single call
    [MeasureShots] on a zeroed array of [max(s, 0)] cells, and returns
    exactly [max(s, 0)] outcomes, each an unsigned 32-bit value; for [s <= 0]
    the list returned is empty.  For any other [s] it raises [OverflowError]
    and the library is not called. *)
Theorem measure_shots_shape `{Native} (self : QrackSimulator) (q : list Z)
  (s : Z) (w : world) :
  if decide (- 2 ^ 63 <= s < 2 ^ 63) then
    exists outs : list Z,
      fst (measure_shots self q s w) = Ok outs /\
      len outs = Z.max s 0 /\
      Forall (fun o => 0 <= o < 2 ^ 32) outs /\
      (s <= 0 -> outs = []) /\
      trace (snd (measure_shots self q s w)) =
      trace w ++ [Ev (qrack_lib.MeasureShots (sid self) (len q)
                        (_uint_byref q) s (replicate (Z.to_nat s) 0))]
  else
    measure_shots self q s w =
    (Raise (OverflowError "cannot fit 'int' into an index-sized integer"), w).
Proof.
  destruct (decide (- 2 ^ 63 <= s < 2 ^ 63)) as [Hr|Hr];
    [|apply measure_shots_overflow; lia].
  rewrite measure_shots_returns by exact Hr. cbv zeta. cbn [fst snd trace].
  set (ar := array_after _ _).
  assert (Hl : length ar = Z.to_nat s)
    by (unfold ar; rewrite length_array_after; apply length_replicate).
  exists ar. split; [reflexivity|].
  split; [unfold len; rewrite Hl; lia|].
  split; [apply array_after_range, Forall_replicate; lia|].
  split; [|reflexivity].
  intros Hs. apply length_zero_iff_nil. rewrite Hl. lia.
Qed.

(** ** Foreign circuits, continued *)

Section circuits.
Context `{Native}.

(** The list of gates is a local of the loop that no round reads. *)
Lemma run_pyzx_gate_any_list (self : QrackSimulator) (gs gs' : list gate)
  (g : gate) (w : world) :
  run_pyzx_gate self gs g w = run_pyzx_gate self gs' g w.
Proof. unfold run_pyzx_gate. now rewrite !game_is_unbound. Qed.

Ltac round_done :=
  cbn; first
    [ discriminate
    | split; [match goal with |- Ok ?u = Ok tt => now destruct u end|];
      eexists; split;
      [ first [ symmetry; apply app_nil_r
              | rewrite <- ?app_assoc; reflexivity ]
      | reflexivity ]
    | eexists; reflexivity ].

(** One round of the loop: a translatable gate returns and issues its native
    calls, any other raises. *)
Lemma run_pyzx_gate_round (self : QrackSimulator) (gs : list gate)
  (g : gate) (w : world) :
  if translatable g then
    fst (run_pyzx_gate self gs g w) = Ok tt /\
    exists evs, trace (snd (run_pyzx_gate self gs g w)) = trace w ++ evs /\
                length evs = calls_of g
  else exists e, fst (run_pyzx_gate self gs g w) = Raise e.
Proof.
  unfold run_pyzx_gate, translatable, calls_of. rewrite game_is_unbound.
  cbn [existsb].
  repeat match goal with
         | |- context [String.eqb (name g) ?b] =>
             let Hn := fresh "Hn" in
             destruct (String.eqb_spec (name g) b) as [Hn|Hn];
             [rewrite ?Hn; clear Hn; cbn|]
         end;
  unfold bind, lift, attr,
    r, z, s, t, x, h, mcx, mcz, mch, mcr, bare_float, swap, phase_parity,
    call;
  destruct (phase g), (target g), (control g), (targets g);
  round_done.
Qed.

Lemma for_each_ext {A} (f g : A -> M unit) (l : list A) (w : world) :
  (forall a w0, f a w0 = g a w0) -> for_each l f w = for_each l g w.
Proof.
  intros Hfg. revert w. induction l as [|a l IH]; intros w; [reflexivity|].
  cbn [for_each]. unfold bind. rewrite Hfg.
  destruct (g a w) as [[u|e] w']; [apply IH | reflexivity].
Qed.

Lemma for_each_app {A} (body : A -> M unit) (l1 l2 : list A) (w : world) :
  for_each (l1 ++ l2) body w = (for_each l1 body ;;; for_each l2 body) w.
Proof.
  revert w. induction l1 as [|a l1 IH]; intros w; [reflexivity|].
  cbn [app for_each]. unfold bind.
  destruct (body a w) as [[u|e] w']; [|reflexivity].
  rewrite IH. reflexivity.
Qed.

(** The loop over translatable gates returns, and counts its calls. *)
Lemma run_gates_translatable (self : QrackSimulator) (gs l : list gate)
  (w : world) :
  forallb translatable l = true ->
  fst (for_each l (run_pyzx_gate self gs) w) = Ok tt /\
  length (trace (snd (for_each l (run_pyzx_gate self gs) w))) =
  (length (trace w) + list_sum (map calls_of l))%nat.
Proof.
  revert w. induction l as [|g l IH]; intros w Hl.
  - cbn. split; [reflexivity | lia].
  - cbn in Hl. apply andb_prop in Hl as [Hg Hl].
    pose proof (run_pyzx_gate_round self gs g w) as Hr. rewrite Hg in Hr.
    destruct Hr as (Hok & evs & Ht & Hn).
    change (list_sum (map calls_of (g :: l)))
      with (calls_of g + list_sum (map calls_of l))%nat.
    cbn [for_each]. unfold bind.
    destruct (run_pyzx_gate self gs g w) as [[[]|e] w']; [|discriminate].
    cbn [fst snd] in Ht. destruct (IH w' Hl) as [Hok' Hlen].
    split; [exact Hok'|]. rewrite Hlen, Ht, length_app, Hn. lia.
Qed.

(** The loop returns only over translatable gates. *)
Lemma run_gates_returns (self : QrackSimulator) (gs l : list gate)
  (w : world) :
  fst (for_each l (run_pyzx_gate self gs) w) = Ok tt ->
  forallb translatable l = true.
Proof.
  revert w. induction l as [|g l IH]; intros w Hok; [reflexivity|].
  cbn [for_each forallb] in *. unfold bind in Hok.
  pose proof (run_pyzx_gate_round self gs g w) as Hr.
  destruct (translatable g).
  - destruct (run_pyzx_gate self gs g w) as [[[]|e] w']; [|discriminate].
    cbn. now apply (IH w').
  - destruct Hr as [e He].
    destruct (run_pyzx_gate self gs g w) as [[[]|e'] w']; discriminate.
Qed.

(** A 'CRZ' gate with all its attributes reaches [mcr], which raises before
    the library is called. *)
Example crz_gate_raises :
  translatable crz_gate = false /\
  run_pyzx_gates sim0 [crz_gate] one_register =
  (Raise (ArgumentError
            "argument 3: TypeError: Don't know how to convert parameter 3"),
   one_register).
Proof. split; reflexivity. Qed.

End circuits.

(** X9.  Which circuits translate.  [run_pyzx_gates] returns exactly when
    every gate of the sequence is translatable: its name is one of the
    thirteen tested before 'FSim' other than 'CRZ', and it has the attributes
    its branch reads.  Any other sequence ends in an exception; so does one
    with a 'CRZ' gate, whose branch ends in [mcr]. *)
Theorem run_pyzx_gates_returns_iff `{Native} (self : QrackSimulator)
  (gates : list gate) (w : world) :
  fst (run_pyzx_gates self gates w) = Ok tt <->
  forallb translatable gates = true.
Proof.
  unfold run_pyzx_gates. split.
  - apply run_gates_returns.
  - intros Hg. now apply run_gates_translatable.
Qed.

(** X10.  Translation composes, and nothing is rolled back.  Translating
    the concatenation of two sequences is translating the first and then, if
    that returned, the second.  So when the second part raises, the native
    calls of the first part have been issued and stay in effect. *)
Theorem run_pyzx_gates_app `{Native} (self : QrackSimulator)
  (gs1 gs2 : list gate) (w : world) :
  run_pyzx_gates self (gs1 ++ gs2) w =
  (run_pyzx_gates self gs1 ;;; run_pyzx_gates self gs2) w /\
  forall w1 : world,
    run_pyzx_gates self gs1 w = (Ok tt, w1) ->
    run_pyzx_gates self (gs1 ++ gs2) w = run_pyzx_gates self gs2 w1 /\
    exists rest,
      trace (snd (run_pyzx_gates self (gs1 ++ gs2) w)) = trace w1 ++ rest.
Proof.
  assert (Happ : run_pyzx_gates self (gs1 ++ gs2) w =
                 (run_pyzx_gates self gs1 ;;; run_pyzx_gates self gs2) w).
  { unfold run_pyzx_gates. rewrite for_each_app. unfold bind.
    rewrite (for_each_ext _ (run_pyzx_gate self gs1) gs1)
      by (intros; apply run_pyzx_gate_any_list).
    destruct (for_each gs1 (run_pyzx_gate self gs1) w) as [[u|e] w1];
      [|reflexivity].
    apply for_each_ext. intros. apply run_pyzx_gate_any_list. }
  split; [exact Happ|].
  intros w1 H1. rewrite Happ. unfold bind. rewrite H1.
  split; [reflexivity|].
  destruct (run_gates_outcome self gs2 gs2 w1) as [(evs & Ht & _) _].
  exists evs. exact Ht.
Qed.

(** X11.  The native calls of a circuit.  A sequence of translatable gates
    adds to the log one native call per gate and two more for every 'CX'
    gate (which is translated as a controlled X between two Hadamards on the
    control). *)
Theorem run_pyzx_gates_call_count `{Native} (self : QrackSimulator)
  (gates : list gate) (w : world) :
  forallb translatable gates = true ->
  length (trace (snd (run_pyzx_gates self gates w))) =
  (length (trace w) + list_sum (map calls_of gates))%nat /\
  list_sum (map calls_of gates) =
  (length gates +
   2 * length (List.filter (fun g => String.eqb (name g) "CX") gates))%nat.
Proof.
  intros Hg. split.
  - now apply run_gates_translatable.
  - clear Hg. induction gates as [|g gates IH]; [reflexivity|].
    cbn [map list_sum fold_right List.filter length] in *.
    unfold calls_of at 1. fold (list_sum (map calls_of gates)). rewrite IH.
    destruct (String.eqb (name g) "CX"); cbn [length]; lia.
Qed.

Lemma run_pyzx_gates_call_count_witness :
  forallb translatable [had_gate; cx_gate; cnot_gate] = true /\
  length (trace (snd (run_pyzx_gates sim0 [had_gate; cx_gate; cnot_gate]
                        one_register))) = 5%nat.
Proof.
  assert (Hg : forallb translatable [had_gate; cx_gate; cnot_gate] = true)
    by reflexivity.
  split; [exact Hg|].
  exact (proj1 (run_pyzx_gates_call_count sim0 _ one_register Hg)).
Defined.

(** ** The life of a simulator object *)

(** X12.  Construction from a foreign circuit.  Passing a circuit to the
    constructor is constructing without one, on the circuit's qubit count,
    and then translating the circuit's gates on the new object; the
    [qubitCount] argument plays no part. *)
Theorem init_with_circuit `{Native} (qubitCount cloneSid : Z)
  (opts : options) (circ : circuit) (w : world) :
  __init__ qubitCount cloneSid opts (Some circ) w =
  (self <- __init__ (qubits circ) cloneSid opts None ;;
   run_pyzx_gates self (gates circ) ;;; ret self) w /\
  forall qubitCount' : Z,
    __init__ qubitCount' cloneSid opts (Some circ) w =
    __init__ qubitCount cloneSid opts (Some circ) w.
Proof.
  split; [|reflexivity].
  unfold __init__.
  destruct ((qubits circ >? -1) && (cloneSid >? -1)); [reflexivity|].
  destruct (cloneSid >? -1); reflexivity.
Qed.

(** X13.  Every handle obtained is released once.  A constructor call that
    passes the guard, without a foreign circuit, followed by any positive
    number of runs of [__del__] on the new object, adds exactly two native
    calls to the log: the creating call, and one [destroy] of the very
    handle that call returned.  The object ends with [sid] set to [None]. *)
Theorem init_then_del `{Native} (qubitCount cloneSid : Z) (opts : options)
  (k : nat) (w : world) :
  ~ (qubitCount > -1 /\ cloneSid > -1) ->
  let c := creation qubitCount cloneSid opts in
  let h := fst (native c (engine w)) in
  let out := (self <- __init__ qubitCount cloneSid opts None ;;
              del_times (S k) self) w in
  fst out = Ok {| sid := None |} /\
  trace (snd out) = trace w ++ [Ev c; Ev (qrack_lib.destroy (Some h))] /\
  destroy_calls (trace (snd out)) = S (destroy_calls (trace w)).
Proof.
  intros Hg c h out.
  assert (Hout : out =
            (Ok {| sid := None |},
             {| engine := snd (native (qrack_lib.destroy (Some h))
                                 (snd (native c (engine w))));
                trace := (trace w ++ [Ev c]) ++
                         [Ev (qrack_lib.destroy (Some h))] |})).
  { unfold out.
    rewrite (bind_ok _ _ _ _ _
               (init_creates qubitCount cloneSid opts None w Hg)).
    cbn [del_times effective_count]. fold c. fold h.
    rewrite (bind_ok _ _ _ _ _ (del_some {| sid := Some h |} h _ eq_refl)).
    now rewrite del_times_none. }
  rewrite Hout. cbn [fst snd trace].
  split; [reflexivity|]. split; [now rewrite <- app_assoc|].
  rewrite !destroy_calls_snoc.
  replace (is_destroy (Ev c)) with false; [cbn; lia|].
  unfold c, creation. now destruct (cloneSid >? -1).
Qed.

Lemma init_then_del_witness :
  ~ (2 > -1 /\ -1 > -1) /\
  fst ((self <- __init__ 2 (-1) default_options None ;; del_times 3 self)
         fresh_world) = Ok {| sid := None |}.
Proof.
  assert (Hg : ~ (2 > -1 /\ -1 > -1)) by lia.
  split; [exact Hg|].
  exact (proj1 (init_then_del 2 (-1) default_options 2 fresh_world Hg)).
Defined.
